(** * simpler: the aicpu_build_graph runtime, host side and delegate

    A shallow embedding of
    - [parse_build_mode_env], [init_runtime_impl] and [validate_runtime_impl]
      of [src/runtime/aicpu_build_graph/host/runtime_maker.cpp],
    - [CoreFunctionBinCache::GetKernel] of [src/platform/a2a3/host/function_cache.h],
    - the [orchestration] delegate of the vector example,
    - the task-graph Builder API ([add_task], [add_successor_conditional],
      [publish_task]), which lives in [runtime.h] / [runtime.cpp],
    together with the properties the design document states about them. *)

From Stdlib Require Import ZArith String Ascii List Bool Lia.
From stdpp Require Import base list.

Local Open Scope Z_scope.

(** ** Build mode: [parse_build_mode_env] *)

Module BuildMode.

(** C strings are modelled by their content before the terminating NUL;
    a [const char*] that may be null is an [option string]. *)

Definition code (c : ascii) : Z := Z.of_nat (nat_of_ascii c).

(** [isspace] in the "C" locale: space, \t, \n, \v, \f, \r. *)
Definition isspace (c : ascii) : bool :=
  (code c =? 32) || ((9 <=? code c) && (code c <=? 13)).

Definition isdigit (c : ascii) : bool :=
  (48 <=? code c) && (code c <=? 57).

Definition isupper (c : ascii) : bool :=
  (65 <=? code c) && (code c <=? 90).

(** [tolower] in the "C" locale. *)
Definition tolower (c : ascii) : Z :=
  if isupper c then code c + 32 else code c.

(** [strcmp]: the difference of the first pair of bytes that differ
    (the terminator counts as byte 0). *)
Fixpoint strcmp (a b : string) : Z :=
  match a, b with
  | EmptyString, EmptyString => 0
  | EmptyString, String d _ => 0 - code d
  | String c _, EmptyString => code c - 0
  | String c a', String d b' =>
      if code c =? code d then strcmp a' b' else code c - code d
  end.

(** [strcasecmp]: as [strcmp], on the lower-cased bytes. *)
Fixpoint strcasecmp (a b : string) : Z :=
  match a, b with
  | EmptyString, EmptyString => 0
  | EmptyString, String d _ => 0 - tolower d
  | String c _, EmptyString => tolower c - 0
  | String c a', String d b' =>
      if tolower c =? tolower d then strcasecmp a' b' else tolower c - tolower d
  end.

Definition LONG_MAX : Z := 9223372036854775807.
Definition LONG_MIN : Z := -9223372036854775808.

Fixpoint skip_spaces (s : string) : string :=
  match s with
  | String c s' => if isspace c then skip_spaces s' else s
  | EmptyString => s
  end.

(** The digits at the head of [s]: their value (on top of [acc]) and how
    many there are. *)
Fixpoint scan_digits (acc : Z) (s : string) : Z * nat :=
  match s with
  | String c s' =>
      if isdigit c
      then let '(v, n) := scan_digits (acc * 10 + (code c - 48)) s' in (v, S n)
      else (acc, O)
  | EmptyString => (acc, O)
  end.

Definition clamp_long (v : Z) : Z :=
  if v <? LONG_MIN then LONG_MIN else if LONG_MAX <? v then LONG_MAX else v.

(** [strtol(s, &end, 10)]: the value, and whether [end != s].  White space is
    skipped, one sign is accepted, the longest run of decimal digits is
    converted and the result saturates at [LONG_MIN] / [LONG_MAX]; with no
    digit nothing is converted, the value is 0 and [end == s]. *)
Definition strtol10 (s : string) : Z * bool :=
  let t := skip_spaces s in
  let '(neg, u) :=
    match t with
    | String "-"%char u => (true, u)
    | String "+"%char u => (false, u)
    | _ => (false, t)
    end in
  let '(v, n) := scan_digits 0 u in
  match n with
  | O => (0, false)
  | S _ => (clamp_long (if neg then - v else v), true)
  end.

Definition parse_build_mode_env (s : option string) (default_mode : Z) : Z :=
  match s with
  | None => default_mode
  | Some EmptyString => default_mode
  | Some s =>
      if (strcmp s "0" =? 0) || (strcasecmp s "sequential" =? 0) then 0
      else if (strcmp s "1" =? 0) || (strcasecmp s "concurrent" =? 0) then 1
      else
        let '(v, moved) := strtol10 s in
        if moved then (if negb (v =? 0) then 1 else 0)
        else default_mode
  end.

(** *** The words of the design document, for comparison *)

Fixpoint all_chars (p : ascii -> bool) (s : string) : bool :=
  match s with
  | EmptyString => true
  | String c s' => p c && all_chars p s'
  end.

Definition is_zero_digit (c : ascii) : bool := code c =? 48.

(** [s] starts with a digit. *)
Definition starts_with_digit (s : string) : bool :=
  match s with
  | String c _ => isdigit c
  | EmptyString => false
  end.

Definition is_sign (s : string) : Prop := s = ""%string \/ s = "+"%string \/ s = "-"%string.

(** A parseable decimal prefix: white space, an optional sign and a
    non-empty, maximal run of digits [ds]. *)
Definition decimal_prefix (s ds : string) : Prop :=
  exists ws sg rest,
    s = (ws ++ sg ++ ds ++ rest)%string /\
    all_chars isspace ws = true /\ is_sign sg /\
    ds <> ""%string /\ all_chars isdigit ds = true /\
    starts_with_digit rest = false.

Definition is_sign_char (c : ascii) : bool := (code c =? 43) || (code c =? 45).

Definition head_is (p : ascii -> bool) (s : string) : bool :=
  match s with
  | String c _ => p c
  | EmptyString => false
  end.

(** No parseable decimal prefix: after the white space [ws] (all of it) and
    the optional sign [sg] there is no digit. *)
Definition no_decimal_prefix (s : string) : Prop :=
  exists ws sg rest,
    s = (ws ++ sg ++ rest)%string /\
    all_chars isspace ws = true /\ is_sign sg /\
    starts_with_digit rest = false /\
    (sg = ""%string -> head_is isspace rest = false /\ head_is is_sign_char rest = false).

(** Equality up to the case of the letters. *)
Fixpoint lower (s : string) : list Z :=
  match s with
  | EmptyString => []
  | String c s' => tolower c :: lower s'
  end.

Definition eq_ignore_case (a b : string) : Prop := lower a = lower b.

Definition nul_free (s : string) : Prop :=
  all_chars (fun c => negb (code c =? 0)) s = true.

(** *** Properties *)

Lemma code_range c : 0 <= code c < 256.
Proof.
  unfold code. pose proof (nat_ascii_bounded c). lia.
Qed.

Lemma tolower_zero c : tolower c = 0 -> code c = 0.
Proof.
  unfold tolower, isupper. pose proof (code_range c).
  destruct (65 <=? code c) eqn:E1, (code c <=? 90) eqn:E2; simpl; lia.
Qed.

Lemma strcasecmp_of_lower a : forall b, lower a = lower b -> strcasecmp a b = 0.
Proof.
  induction a as [|c a IH]; intros [|d b] H; simpl in *; try discriminate; [reflexivity|].
  injection H as Hc Hl. rewrite Hc, Z.eqb_refl. now apply IH.
Qed.

Lemma lower_of_strcasecmp a : forall b,
  nul_free a -> nul_free b -> strcasecmp a b = 0 -> lower a = lower b.
Proof.
  unfold nul_free.
  induction a as [|c a IH]; intros [|d b] Ha Hb H; simpl in *.
  - reflexivity.
  - apply andb_prop in Hb as [Hd _]. pose proof (tolower_zero d).
    destruct (code d =? 0) eqn:E; [discriminate|]. lia.
  - apply andb_prop in Ha as [Hc _]. pose proof (tolower_zero c).
    destruct (code c =? 0) eqn:E; [discriminate|]. lia.
  - apply andb_prop in Ha as [_ Ha]. apply andb_prop in Hb as [_ Hb].
    destruct (tolower c =? tolower d) eqn:E.
    + apply Z.eqb_eq in E. rewrite E. f_equal. now apply IH.
    + apply Z.eqb_neq in E. lia.
Qed.

Lemma skip_spaces_app ws t :
  all_chars isspace ws = true -> skip_spaces (ws ++ t) = skip_spaces t.
Proof.
  induction ws as [|c ws IH]; simpl; intros H; [reflexivity|].
  apply andb_prop in H as [Hc Hw]. rewrite Hc. now apply IH.
Qed.

Lemma skip_spaces_id t : head_is isspace t = false -> skip_spaces t = t.
Proof.
  destruct t as [|c t]; simpl; [reflexivity|]. now intros ->.
Qed.

Lemma scan_digits_none acc t : starts_with_digit t = false -> scan_digits acc t = (acc, O).
Proof.
  destruct t as [|c t]; simpl; [reflexivity|]. now intros ->.
Qed.

(** The digits [ds] followed by a non-digit: all of [ds] is consumed, and the
    value is zero exactly when the start value is and every digit is 0. *)
Lemma scan_digits_app ds : forall acc rest,
  all_chars isdigit ds = true -> starts_with_digit rest = false -> 0 <= acc ->
  exists v, scan_digits acc (ds ++ rest) = (v, String.length ds) /\ 0 <= v /\
            (v = 0 <-> acc = 0 /\ all_chars is_zero_digit ds = true).
Proof.
  induction ds as [|c ds IH]; simpl; intros acc rest Hd Hr Hacc.
  - exists acc. rewrite (scan_digits_none _ _ Hr). intuition.
  - apply andb_prop in Hd as [Hc Hd]. rewrite Hc.
    assert (Hrange : 48 <= code c <= 57).
    { unfold isdigit in Hc. apply andb_prop in Hc as [H1 H2]. lia. }
    destruct (IH (acc * 10 + (code c - 48)) rest Hd Hr ltac:(lia)) as (v & Hs & Hv & Hz).
    exists v. rewrite Hs. split; [reflexivity|]. split; [exact Hv|].
    rewrite Hz. unfold is_zero_digit.
    destruct (code c =? 48) eqn:E; simpl.
    + apply Z.eqb_eq in E. intuition lia.
    + apply Z.eqb_neq in E. intuition (try lia; try discriminate).
Qed.

Lemma clamp_long_zero v : clamp_long v = 0 <-> v = 0.
Proof.
  unfold clamp_long, LONG_MIN, LONG_MAX.
  destruct (v <? _) eqn:E1; [lia|]. destruct (_ <? v) eqn:E2; lia.
Qed.

Lemma strtol10_prefix t ds :
  decimal_prefix t ds ->
  exists v, strtol10 t = (v, true) /\ (v = 0 <-> all_chars is_zero_digit ds = true).
Proof.
  intros (ws & sg & rest & -> & Hws & Hsg & Hne & Hds & Hrest).
  destruct ds as [|c ds]; [congruence|]. clear Hne.
  assert (Hc : isdigit c = true) by (simpl in Hds; now apply andb_prop in Hds as [? _]).
  assert (Hcs : isspace c = false).
  { unfold isdigit, isspace in *. apply andb_prop in Hc as [H1 H2].
    destruct (code c =? 32) eqn:E1; [lia|]. simpl.
    destruct (9 <=? code c) eqn:E2; [|reflexivity]. simpl. lia. }
  assert (Hcm : c <> "-"%char /\ c <> "+"%char).
  { split; intros ->; vm_compute in Hc; discriminate. }
  destruct (scan_digits_app (String c ds) 0 rest Hds Hrest ltac:(lia)) as (v & Hs & Hv & Hz).
  unfold strtol10. rewrite skip_spaces_app by exact Hws.
  destruct Hsg as [-> | [-> | ->]].
  - rewrite skip_spaces_id by (simpl; exact Hcs).
    change ("" ++ String c ds ++ rest)%string with (String c (ds ++ rest)).
    change (String c ds ++ rest)%string with (String c (ds ++ rest)) in Hs.
    destruct (ascii_dec c "-") as [->|N1]; [tauto|].
    destruct (ascii_dec c "+") as [->|N2]; [tauto|].
    assert (E : (let '(neg, u) := match String c (ds ++ rest) with
                   | String "-"%char u => (true, u)
                   | String "+"%char u => (false, u)
                   | _ => (false, String c (ds ++ rest)) end in
                 let '(v, n) := scan_digits 0 u in
                 match n with O => (0, false) | S _ => (clamp_long (if neg then - v else v), true) end)
                = (clamp_long v, true)).
    { destruct c as [[] [] [] [] [] [] [] []]; try congruence;
        cbv zeta iota beta; rewrite Hs; reflexivity. }
    rewrite E. exists (clamp_long v). split; [reflexivity|].
    rewrite clamp_long_zero, Hz. intuition.
  - change (skip_spaces ("+" ++ String c ds ++ rest)) with ("+" ++ String c ds ++ rest)%string.
    change ("+" ++ String c ds ++ rest)%string with (String "+" (String c ds ++ rest)).
    cbv iota beta. rewrite Hs. cbn [String.length].
    exists (clamp_long v). split; [reflexivity|].
    rewrite clamp_long_zero, Hz. intuition.
  - change (skip_spaces ("-" ++ String c ds ++ rest)) with ("-" ++ String c ds ++ rest)%string.
    change ("-" ++ String c ds ++ rest)%string with (String "-" (String c ds ++ rest)).
    cbv iota beta. rewrite Hs. cbn [String.length].
    exists (clamp_long (- v)). split; [reflexivity|].
    rewrite clamp_long_zero.
    assert (Hneg : - v = 0 <-> v = 0) by lia.
    rewrite Hneg, Hz. intuition.
Qed.

Lemma strtol10_no_prefix t : no_decimal_prefix t -> strtol10 t = (0, false).
Proof.
  intros (ws & sg & rest & -> & Hws & Hsg & Hrest & Hhead).
  unfold strtol10. rewrite skip_spaces_app by exact Hws.
  destruct Hsg as [-> | [-> | ->]].
  - destruct (Hhead eq_refl) as [Hsp Hsgn]. cbn [append].
    rewrite skip_spaces_id by exact Hsp.
    destruct rest as [|c rest]; [reflexivity|].
    simpl in Hrest, Hsgn.
    assert (E : (let '(neg, u) := match String c rest with
                   | String "-"%char u => (true, u)
                   | String "+"%char u => (false, u)
                   | _ => (false, String c rest) end in
                 let '(v, n) := scan_digits 0 u in
                 match n with O => (0, false) | S _ => (clamp_long (if neg then - v else v), true) end)
                = (0, false)).
    { destruct c as [[] [] [] [] [] [] [] []];
        try (vm_compute in Hsgn; discriminate);
        cbv zeta iota beta; cbn [scan_digits]; rewrite Hrest; reflexivity. }
    exact E.
  - change (skip_spaces ("+" ++ rest)) with (String "+" rest).
    cbv iota beta. now rewrite (scan_digits_none _ _ Hrest).
  - change (skip_spaces ("-" ++ rest)) with (String "-" rest).
    cbv iota beta. now rewrite (scan_digits_none _ _ Hrest).
Qed.

(** What [strtol] makes of the four keywords: the two numeric ones convert to
    their value, the two words convert nothing. *)
Lemma strtol10_of_zero t : strcmp t "0" = 0 -> strtol10 t = (0, true).
Proof.
  destruct t as [|c t]; [vm_compute; discriminate|].
  destruct c as [[] [] [] [] [] [] [] []]; intros H; vm_compute in H; try discriminate.
  destruct t as [|c t]; [reflexivity|].
  destruct c as [[] [] [] [] [] [] [] []]; vm_compute in H; try discriminate.
  reflexivity.
Qed.

Lemma strtol10_of_one t : strcmp t "1" = 0 -> strtol10 t = (1, true).
Proof.
  destruct t as [|c t]; [vm_compute; discriminate|].
  destruct c as [[] [] [] [] [] [] [] []]; intros H; vm_compute in H; try discriminate.
  destruct t as [|c t]; [reflexivity|].
  destruct c as [[] [] [] [] [] [] [] []]; vm_compute in H; try discriminate.
  reflexivity.
Qed.

Lemma strcasecmp_head c t d u :
  strcasecmp (String c t) (String d u) = 0 -> tolower c = tolower d.
Proof.
  simpl. destruct (tolower c =? tolower d) eqn:E.
  - now apply Z.eqb_eq in E.
  - lia.
Qed.

(** A string that starts with a letter has no decimal prefix. *)
Lemma letter_head_no_prefix c t :
  97 <= tolower c <= 122 -> no_decimal_prefix (String c t).
Proof.
  intros H. exists ""%string, ""%string, (String c t).
  assert (Hc : 65 <= code c <= 90 \/ 97 <= code c <= 122).
  { unfold tolower, isupper in H.
    destruct (65 <=? code c) eqn:E1, (code c <=? 90) eqn:E2; simpl in H; lia. }
  repeat split; try reflexivity; try (left; reflexivity); simpl;
    unfold isdigit, isspace, is_sign_char;
    repeat match goal with
           | |- context [?a <=? ?b] => destruct (Z.leb_spec a b)
           | |- context [?a =? ?b] => destruct (Z.eqb_spec a b)
           end; simpl; try reflexivity; lia.
Qed.

Lemma strtol10_of_sequential t : strcasecmp t "sequential" = 0 -> strtol10 t = (0, false).
Proof.
  destruct t as [|c t]; [vm_compute; discriminate|].
  intros H. apply strcasecmp_head in H.
  apply strtol10_no_prefix, letter_head_no_prefix. rewrite H. vm_compute. split; discriminate.
Qed.

Lemma strtol10_of_concurrent t : strcasecmp t "concurrent" = 0 -> strtol10 t = (0, false).
Proof.
  destruct t as [|c t]; [vm_compute; discriminate|].
  intros H. apply strcasecmp_head in H.
  apply strtol10_no_prefix, letter_head_no_prefix. rewrite H. vm_compute. split; discriminate.
Qed.

Lemma decimal_prefix_nonempty ds : ~ decimal_prefix "" ds.
Proof.
  intros (ws & sg & rest & E & _ & _ & Hne & _).
  destruct ws; [|discriminate]. destruct sg; [|discriminate]. destruct ds; [congruence|discriminate].
Qed.

(** C4. [parse_build_mode_env s d]: 0 for "0" and for "sequential" in any
    case; 1 for "1" and for "concurrent" in any case; for a string with a
    parseable decimal prefix, 1 when its value is not zero and 0 when it is;
    the default [d] for a null or empty string, and for a string that is no
    keyword and has no parseable decimal prefix; and never anything but 0, 1
    or [d]. *)
Theorem parse_build_mode_env_spec (s : option string) (d : Z) :
  let r := parse_build_mode_env s d in
  (forall t, s = Some t -> t = "0"%string \/ eq_ignore_case t "sequential" -> r = 0) /\
  (forall t, s = Some t -> t = "1"%string \/ eq_ignore_case t "concurrent" -> r = 1) /\
  (forall t ds, s = Some t -> decimal_prefix t ds ->
     r = if all_chars is_zero_digit ds then 0 else 1) /\
  (s = None \/ s = Some ""%string -> r = d) /\
  (forall t, s = Some t -> nul_free t ->
     ~ eq_ignore_case t "sequential" -> ~ eq_ignore_case t "concurrent" ->
     no_decimal_prefix t -> r = d) /\
  (r = 0 \/ r = 1 \/ r = d).
Proof.
  cbv zeta. repeat split.
  - intros t -> H. destruct t as [|c t].
    { destruct H as [H|H]; discriminate. }
    unfold parse_build_mode_env.
    destruct H as [-> | H]; [reflexivity|].
    apply strcasecmp_of_lower in H. rewrite H. now rewrite orb_true_r.
  - intros t -> H. destruct t as [|c t].
    { destruct H as [H|H]; discriminate. }
    unfold parse_build_mode_env.
    destruct H as [-> | H]; [reflexivity|].
    assert (H0 : (strcmp (String c t) "0" =? 0) = false).
    { apply Z.eqb_neq. intros E. apply strtol10_of_zero in E.
      apply strcasecmp_of_lower, strtol10_of_concurrent in H. congruence. }
    assert (H1 : (strcasecmp (String c t) "sequential" =? 0) = false).
    { apply Z.eqb_neq. intros E. apply strcasecmp_head in E.
      injection H as Hc _. rewrite Hc in E. vm_compute in E. discriminate. }
    rewrite H0, H1. apply strcasecmp_of_lower in H. rewrite H. now rewrite orb_true_r.
  - intros t ds -> Hp. destruct t as [|c t].
    { now apply decimal_prefix_nonempty in Hp. }
    destruct (strtol10_prefix _ _ Hp) as (v & Hs & Hz).
    unfold parse_build_mode_env.
    destruct (strcmp (String c t) "0" =? 0) eqn:E0.
    { apply Z.eqb_eq, strtol10_of_zero in E0. rewrite Hs in E0. injection E0 as ->.
      simpl. destruct (all_chars is_zero_digit ds); [reflexivity|]. destruct Hz as [Hz _]. now specialize (Hz eq_refl). }
    destruct (strcasecmp (String c t) "sequential" =? 0) eqn:E1.
    { apply Z.eqb_eq, strtol10_of_sequential in E1. congruence. }
    destruct (strcmp (String c t) "1" =? 0) eqn:E2.
    { apply Z.eqb_eq, strtol10_of_one in E2. rewrite Hs in E2. injection E2 as ->.
      simpl. destruct (all_chars is_zero_digit ds); [|reflexivity]. destruct Hz as [_ Hz]. now specialize (Hz eq_refl). }
    destruct (strcasecmp (String c t) "concurrent" =? 0) eqn:E3.
    { apply Z.eqb_eq, strtol10_of_concurrent in E3. congruence. }
    simpl. rewrite Hs.
    destruct (v =? 0) eqn:Ev; simpl.
    + apply Z.eqb_eq in Ev. apply Hz in Ev. now rewrite Ev.
    + apply Z.eqb_neq in Ev. destruct (all_chars is_zero_digit ds); [|reflexivity].
      destruct Hz as [_ Hz]. now specialize (Hz eq_refl).
  - intros [-> | ->]; reflexivity.
  - intros t -> Hn Hseq Hcon Hp. destruct t as [|c t]; [reflexivity|].
    pose proof (strtol10_no_prefix _ Hp) as Hs.
    unfold parse_build_mode_env.
    destruct (strcmp (String c t) "0" =? 0) eqn:E0.
    { apply Z.eqb_eq, strtol10_of_zero in E0. congruence. }
    destruct (strcasecmp (String c t) "sequential" =? 0) eqn:E1.
    { apply Z.eqb_eq in E1. apply lower_of_strcasecmp in E1; [contradiction|exact Hn|reflexivity]. }
    destruct (strcmp (String c t) "1" =? 0) eqn:E2.
    { apply Z.eqb_eq, strtol10_of_one in E2. congruence. }
    destruct (strcasecmp (String c t) "concurrent" =? 0) eqn:E3.
    { apply Z.eqb_eq in E3. apply lower_of_strcasecmp in E3; [contradiction|exact Hn|reflexivity]. }
    simpl. now rewrite Hs.
  - unfold parse_build_mode_env. destruct s as [[|c t]|]; auto.
    destruct (_ || _); auto. destruct (_ || _); auto.
    destruct (strtol10 _) as [v []]; auto.
    destruct (negb _); auto.
Qed.

(** The theorem at work on concrete strings. *)
Lemma parse_build_mode_env_spec_witness :
  parse_build_mode_env (Some "SeQuential"%string) 7 = 0 /\
  parse_build_mode_env (Some "Concurrent"%string) 7 = 1 /\
  parse_build_mode_env (Some "  -012abc"%string) 7 = 1 /\
  parse_build_mode_env (Some "+000"%string) 7 = 0 /\
  parse_build_mode_env (Some ""%string) 7 = 7 /\
  parse_build_mode_env (Some " parallel"%string) 7 = 7.
Proof.
  split; [|split; [|split; [|split; [|split]]]].
  - apply (proj1 (parse_build_mode_env_spec (Some "SeQuential"%string) 7) "SeQuential"%string eq_refl).
    right. reflexivity.
  - apply (proj1 (proj2 (parse_build_mode_env_spec (Some "Concurrent"%string) 7)) "Concurrent"%string eq_refl).
    right. reflexivity.
  - apply (proj1 (proj2 (proj2 (parse_build_mode_env_spec (Some "  -012abc"%string) 7)))
             "  -012abc"%string "012"%string eq_refl).
    exists "  "%string, "-"%string, "abc"%string.
    repeat split; try reflexivity; [right; right; reflexivity | discriminate].
  - apply (proj1 (proj2 (proj2 (parse_build_mode_env_spec (Some "+000"%string) 7)))
             "+000"%string "000"%string eq_refl).
    exists ""%string, "+"%string, ""%string.
    repeat split; try reflexivity; [right; left; reflexivity | discriminate].
  - apply (proj1 (proj2 (proj2 (proj2 (parse_build_mode_env_spec (Some ""%string) 7))))).
    right. reflexivity.
  - apply (proj1 (proj2 (proj2 (proj2 (proj2 (parse_build_mode_env_spec (Some " parallel"%string) 7)))))
             " parallel"%string eq_refl).
    + reflexivity.
    + discriminate.
    + discriminate.
    + exists " "%string, ""%string, "parallel"%string.
      repeat split; try reflexivity. left. reflexivity.
Defined.

(** *** The case of the letters *)

(** The sign test of [strtol10], on its own. *)
Definition split_sign (t : string) : bool * string :=
  match t with
  | String "-"%char u => (true, u)
  | String "+"%char u => (false, u)
  | _ => (false, t)
  end.

Lemma strtol10_split_sign s :
  strtol10 s =
    let '(neg, u) := split_sign (skip_spaces s) in
    let '(v, n) := scan_digits 0 u in
    match n with
    | O => (0, false)
    | S _ => (clamp_long (if neg then - v else v), true)
    end.
Proof. reflexivity. Qed.

Lemma split_sign_code c u :
  split_sign (String c u) =
    if code c =? 45 then (true, u)
    else if code c =? 43 then (false, u)
    else (false, String c u).
Proof. destruct c as [[] [] [] [] [] [] [] []]; reflexivity. Qed.

Definition is_letter (c : ascii) : bool :=
  ((65 <=? code c) && (code c <=? 90)) || ((97 <=? code c) && (code c <=? 122)).

(** Two bytes with the same lower case are the same byte, or two letters. *)
Lemma tolower_eq_cases c c' :
  tolower c = tolower c' -> c = c' \/ (is_letter c = true /\ is_letter c' = true).
Proof.
  unfold tolower, isupper, is_letter. intros H.
  destruct (Z.leb_spec 65 (code c)), (Z.leb_spec (code c) 90),
           (Z.leb_spec 65 (code c')), (Z.leb_spec (code c') 90); simpl in *;
    repeat match goal with
           | |- context [?a <=? ?b] => destruct (Z.leb_spec a b)
           end; simpl; try (right; split; reflexivity); try lia;
    left; apply (f_equal Z.to_nat) in H; unfold code in H; rewrite !Nat2Z.id in H;
    rewrite <- (ascii_nat_embedding c), <- (ascii_nat_embedding c'); now rewrite H.
Qed.

Lemma letter_classes c :
  is_letter c = true ->
  isspace c = false /\ isdigit c = false /\
  (code c =? 45) = false /\ (code c =? 43) = false /\
  (code c =? 48) = false /\ (code c =? 49) = false /\ (code c =? 0) = false.
Proof.
  unfold is_letter, isspace, isdigit. intros H.
  apply orb_prop in H as [H|H]; apply andb_prop in H as [H1 H2];
    apply Z.leb_le in H1; apply Z.leb_le in H2;
    repeat split;
    repeat match goal with
           | |- context [?a <=? ?b] => destruct (Z.leb_spec a b)
           | |- context [?a =? ?b] => destruct (Z.eqb_spec a b)
           end; simpl; try reflexivity; lia.
Qed.

Lemma strcasecmp_ignores_case a : forall b k,
  eq_ignore_case a b -> strcasecmp a k = strcasecmp b k.
Proof.
  unfold eq_ignore_case.
  induction a as [|c a IH]; intros [|c' b] k H; simpl in H; try discriminate.
  - reflexivity.
  - injection H as Hc Hl. destruct k as [|d k]; simpl; rewrite Hc; [reflexivity|].
    destruct (tolower c' =? tolower d); [now apply IH | reflexivity].
Qed.

(** [strcmp] against a one-byte string whose byte is no letter. *)
Lemma strcmp_ignores_case a b d :
  eq_ignore_case a b -> is_letter d = false ->
  (strcmp a (String d "") =? 0) = (strcmp b (String d "") =? 0).
Proof.
  unfold eq_ignore_case. intros H Hd.
  destruct a as [|c a], b as [|c' b]; simpl in H; try discriminate; [reflexivity|].
  injection H as Hc Hl. simpl.
  destruct (tolower_eq_cases c c' Hc) as [<- | [L L']].
  - destruct (code c =? code d); [|reflexivity].
    destruct a as [|e a], b as [|e' b]; simpl in Hl; try discriminate; [reflexivity|].
    injection Hl as He _.
    destruct (tolower_eq_cases e e' He) as [<- | [M M']]; [reflexivity|].
    destruct (letter_classes e M) as (_ & _ & _ & _ & _ & _ & Z1).
    destruct (letter_classes e' M') as (_ & _ & _ & _ & _ & _ & Z2).
    apply Z.eqb_neq in Z1, Z2. cbn [strcmp].
    destruct (Z.eqb_spec (code e - 0) 0), (Z.eqb_spec (code e' - 0) 0); try reflexivity; lia.
  - assert (N : code c <> code d) by (intros E; unfold is_letter in *; rewrite E in L; congruence).
    assert (N' : code c' <> code d)
      by (intros E; unfold is_letter in *; rewrite E in L'; congruence).
    apply Z.eqb_neq in N, N'. rewrite N, N'. apply Z.eqb_neq in N, N'.
    destruct (Z.eqb_spec (code c - code d) 0), (Z.eqb_spec (code c' - code d) 0);
      try reflexivity; lia.
Qed.

Lemma skip_spaces_ignores_case a : forall b,
  eq_ignore_case a b -> eq_ignore_case (skip_spaces a) (skip_spaces b).
Proof.
  unfold eq_ignore_case.
  induction a as [|c a IH]; intros [|c' b] H; simpl in H; try discriminate; [reflexivity|].
  injection H as Hc Hl. simpl.
  destruct (tolower_eq_cases c c' Hc) as [<- | [L L']].
  - destruct (isspace c); [now apply IH | simpl; now rewrite Hl].
  - destruct (letter_classes c L) as (-> & _). destruct (letter_classes c' L') as (-> & _).
    simpl. now rewrite Hc, Hl.
Qed.

Lemma scan_digits_ignores_case a : forall b acc,
  eq_ignore_case a b -> scan_digits acc a = scan_digits acc b.
Proof.
  unfold eq_ignore_case.
  induction a as [|c a IH]; intros [|c' b] acc H; simpl in H; try discriminate; [reflexivity|].
  injection H as Hc Hl. simpl.
  destruct (tolower_eq_cases c c' Hc) as [<- | [L L']].
  - destruct (isdigit c); [now rewrite (IH b _ Hl) | reflexivity].
  - destruct (letter_classes c L) as (_ & -> & _).
    destruct (letter_classes c' L') as (_ & -> & _). reflexivity.
Qed.

Lemma strtol10_ignores_case a b : eq_ignore_case a b -> strtol10 a = strtol10 b.
Proof.
  intros H. rewrite !strtol10_split_sign.
  apply skip_spaces_ignores_case in H. unfold eq_ignore_case in H.
  destruct (skip_spaces a) as [|c u], (skip_spaces b) as [|c' u']; simpl in H;
    try discriminate; [reflexivity|].
  injection H as Hc Hl. rewrite !split_sign_code.
  destruct (tolower_eq_cases c c' Hc) as [<- | [L L']].
  - destruct (code c =? 45); [now rewrite (scan_digits_ignores_case u u' 0 Hl)|].
    destruct (code c =? 43); [now rewrite (scan_digits_ignores_case u u' 0 Hl)|].
    rewrite (scan_digits_ignores_case (String c u) (String c u') 0); [reflexivity|].
    unfold eq_ignore_case. simpl. now rewrite Hl.
  - destruct (letter_classes c L) as (_ & D & M & P & _).
    destruct (letter_classes c' L') as (_ & D' & M' & P' & _).
    rewrite M, P, M', P'. simpl. now rewrite D, D'.
Qed.

(** X10. [parse_build_mode_env] does not look at the case of the letters: two
    strings that differ in the case of letters only give the same mode. *)
Theorem parse_build_mode_env_ignores_case (a b : string) (d : Z) :
  eq_ignore_case a b ->
  parse_build_mode_env (Some a) d = parse_build_mode_env (Some b) d.
Proof.
  intros H. unfold parse_build_mode_env.
  rewrite (strcmp_ignores_case a b "0" H eq_refl), (strcmp_ignores_case a b "1" H eq_refl).
  rewrite (strcasecmp_ignores_case a b "sequential" H).
  rewrite (strcasecmp_ignores_case a b "concurrent" H).
  rewrite (strtol10_ignores_case a b H).
  destruct a as [|c a], b as [|c' b]; try reflexivity; discriminate.
Qed.

Lemma parse_build_mode_env_ignores_case_witness :
  parse_build_mode_env (Some "CONCURRENT"%string) 0 =
  parse_build_mode_env (Some "concurrent"%string) 0.
Proof.
  apply (parse_build_mode_env_ignores_case "CONCURRENT" "concurrent" 0). reflexivity.
Defined.

End BuildMode.

(** ** Kernel binary cache: [CoreFunctionBinCache::GetKernel] *)

Module FunctionCache.

(** The header of the cache.  The offset table and the binaries follow it in
    memory; [this] is the address of the header, [mem] reads the 64-bit
    word at an address, and a pointer is its address ([nullptr] is 0). *)
Record CoreFunctionBinCache := {
  dataSize : Z;
  numKernels : Z
}.

Definition nullptr : Z := 0.
Definition sizeof_CoreFunctionBinCache : Z := 16.
Definition sizeof_uint64 : Z := 8.

Definition GetOffsets (this : Z) : Z :=
  this + sizeof_CoreFunctionBinCache.

Definition GetBinaryData (this : Z) (c : CoreFunctionBinCache) : Z :=
  GetOffsets this + numKernels c * sizeof_uint64.

(** The returned pointer, and the addresses that were read on the way. *)
Definition GetKernel (mem : Z -> Z) (this : Z) (c : CoreFunctionBinCache) (index : Z)
  : Z * list Z :=
  if numKernels c <=? index then (nullptr, [])
  else
    let a := GetOffsets this + index * sizeof_uint64 in
    let offset := mem a in
    (GetBinaryData this c + offset, [a]).

Definition GetTotalSize (c : CoreFunctionBinCache) : Z :=
  (sizeof_CoreFunctionBinCache + numKernels c * sizeof_uint64 + dataSize c) mod 2 ^ 64.

(** C10. [GetKernel index] is [nullptr] when [index >= numKernels], and
    reads nothing then; whatever it reads is the entry of the offset table
    at [index], and [index] is below [numKernels]. *)
Theorem GetKernel_bounds (mem : Z -> Z) (this : Z) (c : CoreFunctionBinCache) (index : Z) :
  (numKernels c <= index -> GetKernel mem this c index = (nullptr, [])) /\
  Forall (fun a => a = GetOffsets this + index * sizeof_uint64 /\ index < numKernels c)
         (snd (GetKernel mem this c index)).
Proof.
  unfold GetKernel. destruct (numKernels c <=? index) eqn:E; simpl.
  - split; [reflexivity | constructor].
  - apply Z.leb_gt in E. split; [lia|].
    constructor; [split; [reflexivity | exact E] | constructor].
Qed.

Lemma GetKernel_bounds_witness :
  GetKernel (fun _ => 64) 4096 {| dataSize := 128; numKernels := 2 |} 5 = (nullptr, []).
Proof.
  apply (proj1 (GetKernel_bounds (fun _ => 64) 4096 {| dataSize := 128; numKernels := 2 |} 5)).
  simpl. lia.
Defined.

Example GetKernel_past_the_end :
  GetKernel (fun _ => 64) 4096 {| dataSize := 128; numKernels := 2 |} 2 = (nullptr, []).
Proof. reflexivity. Qed.

Example GetKernel_last :
  GetKernel (fun a => if a =? 4120 then 64 else 0) 4096
            {| dataSize := 128; numKernels := 2 |} 1 = (4192, [4120]).
Proof. reflexivity. Qed.

(** *** The layout of the cache *)

(** The number of bytes of the block when nothing wraps around. *)
Definition block_size (c : CoreFunctionBinCache) : Z :=
  sizeof_CoreFunctionBinCache + numKernels c * sizeof_uint64 + dataSize c.



(** X12. When the sizes of the header, the table and the data add up without
    wrapping, [GetTotalSize] is their sum, and a kernel whose offset entry
    leaves room for its size field inside the data region is returned as a
    pointer into the block: not before [GetBinaryData], and with its size
    field ending within [GetTotalSize] bytes of the header. *)
Theorem GetKernel_inside_block (mem : Z -> Z) (this : Z) (c : CoreFunctionBinCache)
    (index : Z) :
  let offset := mem (GetOffsets this + index * sizeof_uint64) in
  0 <= index < numKernels c -> 0 <= dataSize c -> block_size c < 2 ^ 64 ->
  0 <= offset -> offset + 8 <= dataSize c ->
  GetTotalSize c = block_size c /\
  GetBinaryData this c + dataSize c = this + GetTotalSize c /\
  fst (GetKernel mem this c index) = GetBinaryData this c + offset /\
  GetBinaryData this c <= fst (GetKernel mem this c index) /\
  fst (GetKernel mem this c index) + 8 <= this + GetTotalSize c.
Proof.
  cbv zeta. intros Hi Hd Hb Ho1 Ho2.
  assert (Ht : GetTotalSize c = block_size c).
  { unfold GetTotalSize, block_size in *. apply Z.mod_small.
    unfold sizeof_CoreFunctionBinCache, sizeof_uint64 in *. lia. }
  rewrite Ht. unfold GetKernel.
  destruct (Z.leb_spec (numKernels c) index); [lia|]. simpl.
  unfold block_size, GetBinaryData, GetOffsets, sizeof_uint64,
    sizeof_CoreFunctionBinCache in *. repeat split; lia.
Qed.

Lemma GetKernel_inside_block_witness :
  GetTotalSize {| dataSize := 128; numKernels := 2 |} = 160 /\
  fst (GetKernel (fun _ => 64) 4096 {| dataSize := 128; numKernels := 2 |} 1) = 4192 /\
  4192 + 8 <= 4096 + 160.
Proof.
  destruct (GetKernel_inside_block (fun _ => 64) 4096
              {| dataSize := 128; numKernels := 2 |} 1) as (Ht & _ & Hk & _ & Hend);
    try (simpl; lia); try (vm_compute; congruence).
  split; [exact Ht|]. split; [exact Hk|]. lia.
Defined.

End FunctionCache.

(** ** Device memory on the real hardware: [aicpu_device_malloc], [aicpu_device_free] *)

Module DeviceMalloc.

(** What the functions do outside their own state: the symbol look-ups, the
    calls of the HAL and the error messages. *)
Inductive Event :=
| EvDlsym (name : string)
| EvHalMemAlloc (size flag rc ptr : Z)
| EvHalMemFree (ptr rc : Z)
| EvDevError (message : string).

(** [MEM_TYPE_HBM]: bit 14 set; device id and virtual memory type are 0. *)
Definition MEM_TYPE_HBM : Z := Z.shiftl 1 14.

(** A request to the allocator. *)
Inductive Call :=
| CallMalloc (size : Z)
| CallFree (ptr : Z).

Section Hal.

(** The state of the device behind the HAL. *)
Variable World : Type.

(** [halMemAlloc(&ptr, size, flag)]: the return code and what [ptr] holds
    afterwards ([ptr] is null before the call).  [halMemFree(ptr)]: the return
    code. *)
Definition HalMemAllocFn : Type := World -> Z -> Z -> Z * Z * World.
Definition HalMemFreeFn : Type := World -> Z -> Z * World.

(** What [dlsym(RTLD_DEFAULT, ...)] finds for the two symbols. *)
Variable dlsym_halMemAlloc : option HalMemAllocFn.
Variable dlsym_halMemFree : option HalMemFreeFn.

(** The three statics of the file, the device and the log. *)
Record State := {
  g_halMemAlloc : option HalMemAllocFn;
  g_halMemFree : option HalMemFreeFn;
  g_hal_resolved : bool;
  world : World;
  log : list Event
}.

Definition initial (w : World) : State :=
  {| g_halMemAlloc := None; g_halMemFree := None; g_hal_resolved := false;
     world := w; log := [] |}.

Definition add_log (evs : list Event) (st : State) : State :=
  {| g_halMemAlloc := g_halMemAlloc st; g_halMemFree := g_halMemFree st;
     g_hal_resolved := g_hal_resolved st; world := world st; log := log st ++ evs |}.

Definition set_world (w : World) (st : State) : State :=
  {| g_halMemAlloc := g_halMemAlloc st; g_halMemFree := g_halMemFree st;
     g_hal_resolved := g_hal_resolved st; world := w; log := log st |}.

Definition resolve_hal_mem_functions (st : State) : State :=
  if g_hal_resolved st then st
  else
    let looked_up := log st ++ [EvDlsym "halMemAlloc"; EvDlsym "halMemFree"] in
    match dlsym_halMemAlloc, dlsym_halMemFree with
    | Some a, Some f =>
        {| g_halMemAlloc := Some a; g_halMemFree := Some f; g_hal_resolved := true;
           world := world st; log := looked_up |}
    | _, _ =>
        {| g_halMemAlloc := None; g_halMemFree := None; g_hal_resolved := true;
           world := world st;
           log := looked_up ++ [EvDevError "Failed to resolve halMemAlloc/halMemFree: %s"] |}
    end.

Definition aicpu_device_malloc (size : Z) (st : State) : Z * State :=
  let st := resolve_hal_mem_functions st in
  match g_halMemAlloc st with
  | None =>
      (0, add_log [EvDevError "halMemAlloc not available, cannot allocate device memory"] st)
  | Some halMemAlloc =>
      let flag := MEM_TYPE_HBM in
      let '(rc, ptr, w) := halMemAlloc (world st) size flag in
      let st := add_log [EvHalMemAlloc size flag rc ptr] (set_world w st) in
      if negb (rc =? 0) || (ptr =? 0)
      then (0, add_log [EvDevError "halMemAlloc failed: rc=%d size=%zu flag=0x%llx"] st)
      else (ptr, st)
  end.

Definition aicpu_device_free (ptr : Z) (st : State) : State :=
  if ptr =? 0 then st
  else
    let st := resolve_hal_mem_functions st in
    match g_halMemFree st with
    | None =>
        add_log [EvDevError "halMemFree not available, cannot free device memory"] st
    | Some halMemFree =>
        let '(rc, w) := halMemFree (world st) ptr in
        let st := add_log [EvHalMemFree ptr rc] (set_world w st) in
        if negb (rc =? 0)
        then add_log [EvDevError "halMemFree failed: rc=%d ptr=%p"] st
        else st
    end.

(** A sequence of requests; the results of the allocations are collected. *)
Fixpoint run (calls : list Call) (st : State) : list Z * State :=
  match calls with
  | [] => ([], st)
  | CallMalloc size :: calls' =>
      let '(p, st) := aicpu_device_malloc size st in
      let '(ps, st) := run calls' st in
      (p :: ps, st)
  | CallFree ptr :: calls' => run calls' (aicpu_device_free ptr st)
  end.

(** *** Reading the log *)

Fixpoint dlsyms (l : list Event) : list string :=
  match l with
  | [] => []
  | EvDlsym name :: l' => name :: dlsyms l'
  | _ :: l' => dlsyms l'
  end.

(** The requests that reached the HAL. *)
Fixpoint hal_requests (l : list Event) : list Call :=
  match l with
  | [] => []
  | EvHalMemAlloc size _ _ _ :: l' => CallMalloc size :: hal_requests l'
  | EvHalMemFree ptr _ :: l' => CallFree ptr :: hal_requests l'
  | _ :: l' => hal_requests l'
  end.

(** The pointers of the HAL allocations that succeeded. *)
Fixpoint hal_allocated (l : list Event) : list Z :=
  match l with
  | [] => []
  | EvHalMemAlloc _ _ rc ptr :: l' =>
      if negb (rc =? 0) || (ptr =? 0) then hal_allocated l' else ptr :: hal_allocated l'
  | _ :: l' => hal_allocated l'
  end.

Fixpoint hal_flags (l : list Event) : list Z :=
  match l with
  | [] => []
  | EvHalMemAlloc _ flag _ _ :: l' => flag :: hal_flags l'
  | _ :: l' => hal_flags l'
  end.

Definition is_null_free (c : Call) : bool :=
  match c with CallFree p => p =? 0 | CallMalloc _ => false end.

(** Both symbols are there, or the functions behave as if none was. *)
Definition resolved_pair : option HalMemAllocFn * option HalMemFreeFn :=
  match dlsym_halMemAlloc, dlsym_halMemFree with
  | Some a, Some f => (Some a, Some f)
  | _, _ => (None, None)
  end.

(** The statics after any number of calls: nothing looked up and nothing
    logged yet, or both symbols looked up once. *)
Definition consistent (st : State) : Prop :=
  if g_hal_resolved st
  then dlsyms (log st) = ["halMemAlloc"%string; "halMemFree"%string] /\
       (g_halMemAlloc st, g_halMemFree st) = resolved_pair
  else log st = [] /\ g_halMemAlloc st = None /\ g_halMemFree st = None.

Lemma dlsyms_app (l1 l2 : list Event) : dlsyms (l1 ++ l2) = dlsyms l1 ++ dlsyms l2.
Proof.
induction l1 as [|[] l1 IH]; simpl; rewrite ?IH; reflexivity.
Qed.

Lemma hal_requests_app (l1 l2 : list Event) :
  hal_requests (l1 ++ l2) = hal_requests l1 ++ hal_requests l2.
Proof.
induction l1 as [|[] l1 IH]; simpl; rewrite ?IH; reflexivity.
Qed.

Lemma hal_allocated_app (l1 l2 : list Event) :
  hal_allocated (l1 ++ l2) = hal_allocated l1 ++ hal_allocated l2.
Proof.
induction l1 as [|[] l1 IH]; simpl; rewrite ?IH; try reflexivity.
destruct (negb (rc =? 0) || (ptr =? 0)); reflexivity.
Qed.

Lemma hal_flags_app (l1 l2 : list Event) :
  hal_flags (l1 ++ l2) = hal_flags l1 ++ hal_flags l2.
Proof.
induction l1 as [|[] l1 IH]; simpl; rewrite ?IH; reflexivity.
Qed.

(** Whether both symbols were found. *)
Definition available : bool :=
  match dlsym_halMemAlloc, dlsym_halMemFree with
  | Some _, Some _ => true
  | _, _ => false
  end.

(** What one call adds to what the HAL has seen and returned. *)
Record extends (requests : list Call) (allocated : list Z) (st st' : State) : Prop := {
  ext_consistent : consistent st';
  ext_requests :
    hal_requests (log st') =
    hal_requests (log st) ++ (if available then requests else []);
  ext_allocated : hal_allocated (log st') = hal_allocated (log st) ++ allocated;
  ext_flags :
    List.Forall (fun flag => flag = MEM_TYPE_HBM) (hal_flags (log st)) ->
    List.Forall (fun flag => flag = MEM_TYPE_HBM) (hal_flags (log st'));
  ext_world : available = false -> world st' = world st /\ allocated = []
}.

Lemma extends_refl (st : State) : consistent st -> extends [] [] st st.
Proof.
intros Hc. split; auto.
- destruct available; now rewrite app_nil_r.
- now rewrite app_nil_r.
Qed.

Lemma extends_trans (r1 r2 : list Call) (a1 a2 : list Z) (st1 st2 st3 : State) :
  extends r1 a1 st1 st2 -> extends r2 a2 st2 st3 -> extends (r1 ++ r2) (a1 ++ a2) st1 st3.
Proof.
intros [c1 q1 l1 f1 w1] [c2 q2 l2 f2 w2]. split; auto.
- rewrite q2, q1, <- app_assoc. destruct available; reflexivity.
- rewrite l2, l1, <- app_assoc. reflexivity.
- intros Ha. destruct (w1 Ha) as [<- ->], (w2 Ha) as [E ->]. now split.
Qed.

Lemma resolve_hal_mem_functions_extends (st : State) :
  consistent st ->
  extends [] [] st (resolve_hal_mem_functions st) /\
  g_hal_resolved (resolve_hal_mem_functions st) = true.
Proof.
intros Hc. unfold resolve_hal_mem_functions.
destruct (g_hal_resolved st) eqn:Hr.
- split; [now apply extends_refl | exact Hr].
- unfold consistent in Hc. rewrite Hr in Hc. destruct Hc as (Hl & Ha & Hf).
  split.
  + split.
    * unfold consistent, resolved_pair.
      destruct dlsym_halMemAlloc, dlsym_halMemFree; simpl;
        rewrite Hl; simpl; split; reflexivity.
    * destruct dlsym_halMemAlloc, dlsym_halMemFree; simpl;
        rewrite ?hal_requests_app; simpl; destruct available;
        rewrite ?app_nil_r; reflexivity.
    * destruct dlsym_halMemAlloc, dlsym_halMemFree; simpl;
        rewrite ?hal_allocated_app; simpl; rewrite ?app_nil_r; reflexivity.
    * destruct dlsym_halMemAlloc, dlsym_halMemFree; simpl;
        rewrite ?hal_flags_app; simpl; rewrite ?app_nil_r; auto.
    * destruct dlsym_halMemAlloc, dlsym_halMemFree; simpl; now split.
  + destruct dlsym_halMemAlloc, dlsym_halMemFree; reflexivity.
Qed.

Lemma resolved_functions (st : State) :
  consistent st -> g_hal_resolved st = true ->
  (available = true /\ is_Some (g_halMemAlloc st) /\ is_Some (g_halMemFree st)) \/
  (available = false /\ g_halMemAlloc st = None /\ g_halMemFree st = None).
Proof.
unfold consistent, resolved_pair, available. intros Hc Hr. rewrite Hr in Hc.
destruct Hc as [_ Hp].
destruct dlsym_halMemAlloc, dlsym_halMemFree; inversion Hp; eauto 6.
Qed.

Lemma add_log_consistent (evs : list Event) (st : State) :
  consistent st -> g_hal_resolved st = true -> dlsyms evs = [] ->
  consistent (add_log evs st).
Proof.
unfold consistent. simpl. intros Hc Hr He. rewrite Hr in *.
rewrite dlsyms_app, He, app_nil_r. exact Hc.
Qed.

Lemma add_log_extends (evs : list Event) (st : State) (w : World) :
  consistent st -> g_hal_resolved st = true -> dlsyms evs = [] ->
  (available = false -> hal_requests evs = [] /\ hal_allocated evs = [] /\ w = world st) ->
  (available = true -> List.Forall (fun flag => flag = MEM_TYPE_HBM) (hal_flags evs)) ->
  extends (hal_requests evs) (hal_allocated evs) st (add_log evs (set_world w st)).
Proof.
intros Hc Hr He Hn Hy. split.
- apply add_log_consistent; auto.
- simpl. rewrite hal_requests_app. destruct available; [reflexivity|].
  destruct Hn as (-> & _); reflexivity.
- simpl. now rewrite hal_allocated_app.
- simpl. rewrite hal_flags_app. intros Hf. apply List.Forall_app. split; [exact Hf|].
  destruct available; [now apply Hy|].
  destruct Hn as (Hq & _); [reflexivity|].
  clear -Hq. induction evs as [|[] evs IH]; simpl in *; try discriminate; auto.
- intros Ha. destruct (Hn Ha) as (_ & -> & ->). now split.
Qed.

Definition nonnull (p : Z) : list Z := if p =? 0 then [] else [p].

Lemma aicpu_device_malloc_extends (size : Z) (st : State) :
  consistent st ->
  extends [CallMalloc size] (nonnull (fst (aicpu_device_malloc size st)))
    st (snd (aicpu_device_malloc size st)) /\
  g_hal_resolved (snd (aicpu_device_malloc size st)) = true.
Proof.
intros Hc. destruct (resolve_hal_mem_functions_extends st Hc) as [He Hr].
unfold aicpu_device_malloc.
set (st1 := resolve_hal_mem_functions st) in *.
pose proof (ext_consistent _ _ _ _ He) as Hc1.
destruct (resolved_functions st1 Hc1 Hr) as [(Ha & [a Ea] & _)|(Ha & Ea & _)]; rewrite Ea.
- destruct (a (world st1) size MEM_TYPE_HBM) as [[rc ptr] w] eqn:Hcall.
  assert (Hstep : extends [CallMalloc size]
            (hal_allocated [EvHalMemAlloc size MEM_TYPE_HBM rc ptr]) st
            (add_log [EvHalMemAlloc size MEM_TYPE_HBM rc ptr] (set_world w st1))).
  { change [CallMalloc size] with ([] ++ hal_requests [EvHalMemAlloc size MEM_TYPE_HBM rc ptr]).
    change (hal_allocated [EvHalMemAlloc size MEM_TYPE_HBM rc ptr])
      with ([] ++ hal_allocated [EvHalMemAlloc size MEM_TYPE_HBM rc ptr]).
    eapply extends_trans; [exact He|].
    apply add_log_extends; auto.
    - rewrite Ha; discriminate.
    - intros _. repeat constructor. }
  simpl in Hstep.
  destruct (negb (rc =? 0) || (ptr =? 0)) eqn:Hfail; simpl.
  + split; [|exact Hr].
    replace (nonnull 0) with (@nil Z ++ []) by reflexivity.
    replace [CallMalloc size] with ([CallMalloc size] ++ []) by reflexivity.
    eapply extends_trans; [exact Hstep|].
    pose proof (add_log_extends
      [EvDevError "halMemAlloc failed: rc=%d size=%zu flag=0x%llx"]
      (add_log [EvHalMemAlloc size MEM_TYPE_HBM rc ptr] (set_world w st1))
      (world (add_log [EvHalMemAlloc size MEM_TYPE_HBM rc ptr] (set_world w st1)))) as Hx.
    simpl in Hx.
    apply Hx; auto; solve [apply (ext_consistent _ _ _ _ Hstep) | intros _; constructor].
  + split; [|exact Hr].
    apply orb_false_iff in Hfail. destruct Hfail as [_ Hp].
    unfold nonnull. rewrite Hp. exact Hstep.
- simpl. split; [|exact Hr].
  replace (nonnull 0) with (@nil Z ++ []) by reflexivity.
  pose proof (add_log_extends
    [EvDevError "halMemAlloc not available, cannot allocate device memory"]
    st1 (world st1)) as Hx.
  simpl in Hx.
  assert (Hst : set_world (world st1) st1 = st1) by now destruct st1.
  rewrite Hst in Hx.
  assert (Hstep : extends [] [] st1
    (add_log [EvDevError "halMemAlloc not available, cannot allocate device memory"] st1)).
  { apply Hx; auto; intros _; constructor. }
  destruct He as [c1 q1 l1 f1 w1], Hstep as [c2 q2 l2 f2 w2]. split; auto.
  + rewrite q2, q1, Ha, !app_nil_r. reflexivity.
  + rewrite l2, l1. simpl. rewrite !app_nil_r. reflexivity.
Qed.

Lemma aicpu_device_free_extends (ptr : Z) (st : State) :
  consistent st ->
  extends (if ptr =? 0 then [] else [CallFree ptr]) [] st (aicpu_device_free ptr st).
Proof.
intros Hc. unfold aicpu_device_free. destruct (ptr =? 0) eqn:Hp.
- now apply extends_refl.
- destruct (resolve_hal_mem_functions_extends st Hc) as [He Hr].
  set (st1 := resolve_hal_mem_functions st) in *.
  pose proof (ext_consistent _ _ _ _ He) as Hc1.
  assert (Hst : set_world (world st1) st1 = st1) by now destruct st1.
  destruct (resolved_functions st1 Hc1 Hr) as [(Ha & _ & [f Ef])|(Ha & _ & Ef)]; rewrite Ef.
  + destruct (f (world st1) ptr) as [rc w] eqn:Hcall.
    assert (Hstep : extends [CallFree ptr] [] st
              (add_log [EvHalMemFree ptr rc] (set_world w st1))).
    { refine (extends_trans [] [CallFree ptr] [] [] _ _ _ He _).
      apply (add_log_extends [EvHalMemFree ptr rc] st1 w); auto;
        solve [rewrite Ha; discriminate | intros _; constructor]. }
    destruct (negb (rc =? 0)); [|exact Hstep].
    refine (eq_rect _ (fun r => extends r [] _ _)
              (extends_trans [CallFree ptr] [] [] [] _ _ _ Hstep _) _ (app_nil_r _)).
    pose proof (add_log_extends [EvDevError "halMemFree failed: rc=%d ptr=%p"]
      (add_log [EvHalMemFree ptr rc] (set_world w st1))
      (world (add_log [EvHalMemFree ptr rc] (set_world w st1)))) as Hx.
    simpl in Hx.
    apply Hx; auto; solve [apply (ext_consistent _ _ _ _ Hstep) | intros _; constructor].
  + pose proof (add_log_extends
      [EvDevError "halMemFree not available, cannot free device memory"]
      st1 (world st1)) as Hx.
    simpl in Hx. rewrite Hst in Hx.
    assert (Hstep : extends [] [] st1
      (add_log [EvDevError "halMemFree not available, cannot free device memory"] st1)).
    { apply Hx; auto; intros _; constructor. }
    destruct He as [c1 q1 l1 f1 w1], Hstep as [c2 q2 l2 f2 w2]. split; auto.
    * rewrite q2, q1, Ha, !app_nil_r. reflexivity.
    * rewrite l2, l1. simpl. rewrite !app_nil_r. reflexivity.
Qed.

Definition passed_on (calls : list Call) : list Call :=
  List.filter (fun c => negb (is_null_free c)) calls.

Definition returned (ps : list Z) : list Z :=
  List.filter (fun p => negb (p =? 0)) ps.

Lemma run_extends (calls : list Call) (st : State) :
  consistent st ->
  extends (passed_on calls) (returned (fst (run calls st))) st (snd (run calls st)).
Proof.
revert st. induction calls as [|[size|ptr] calls IH]; intros st Hc; simpl.
- now apply extends_refl.
- destruct (aicpu_device_malloc_extends size st Hc) as [He _].
  destruct (aicpu_device_malloc size st) as [p st1]. simpl in He.
  specialize (IH st1 (ext_consistent _ _ _ _ He)).
  destruct (run calls st1) as [ps st2]. simpl in *.
  change (CallMalloc size :: passed_on calls) with ([CallMalloc size] ++ passed_on calls).
  replace (if negb (p =? 0) then p :: returned ps else returned ps)
    with (nonnull p ++ returned ps)
    by (unfold nonnull; destruct (p =? 0); reflexivity).
  eapply extends_trans; eassumption.
- pose proof (aicpu_device_free_extends ptr st Hc) as He.
  specialize (IH _ (ext_consistent _ _ _ _ He)).
  replace (if negb (ptr =? 0) then CallFree ptr :: passed_on calls else passed_on calls)
    with ((if ptr =? 0 then [] else [CallFree ptr]) ++ passed_on calls)
    by (destruct (ptr =? 0); reflexivity).
  change (returned (fst (run calls (aicpu_device_free ptr st))))
    with ([] ++ returned (fst (run calls (aicpu_device_free ptr st)))).
  eapply extends_trans; eassumption.
Qed.

Lemma initial_consistent (w : World) : consistent (initial w).
Proof.
unfold consistent. simpl. auto.
Qed.

(** X13. The symbols are looked up at most once.  After any sequence of
    [aicpu_device_malloc] and [aicpu_device_free] calls, either nothing has
    been resolved, nothing logged and both function pointers are null (only
    null frees were made), or [dlsym] has been called exactly once for
    [halMemAlloc] and once for [halMemFree], in that order, and the two
    function pointers are the two symbols found, or both null when one of
    them is missing: a failed resolution is never tried again. *)
Theorem resolve_hal_mem_functions_once (calls : list Call) (w : World) :
  consistent (snd (run calls (initial w))).
Proof.
exact (ext_consistent _ _ _ _ (run_extends calls _ (initial_consistent w))).
Qed.

(** X14. With both symbols found, the HAL receives exactly the calls made,
    in order, apart from the frees of a null pointer: every
    [aicpu_device_malloc] reaches [halMemAlloc] with its size, every
    [aicpu_device_free] of a non-null pointer reaches [halMemFree] with that
    pointer, whatever the earlier calls returned, and every allocation asks
    for [MEM_TYPE_HBM]. *)
Theorem run_hal_requests (a : HalMemAllocFn) (f : HalMemFreeFn)
    (calls : list Call) (w : World) :
  dlsym_halMemAlloc = Some a -> dlsym_halMemFree = Some f ->
  hal_requests (log (snd (run calls (initial w)))) = passed_on calls /\
  List.Forall (fun flag => flag = Z.shiftl 1 14)
    (hal_flags (log (snd (run calls (initial w))))).
Proof.
intros Ha Hf.
destruct (run_extends calls _ (initial_consistent w)) as [_ Hq _ Hfl _].
unfold available in Hq. rewrite Ha, Hf in Hq. split.
- exact Hq.
- apply Hfl. constructor.
Qed.

(** X15. When one of the two symbols is missing, every allocation of every
    sequence of calls returns null, the HAL is never called (not even the
    function that was found) and the device is left as it was. *)
Theorem run_symbol_missing (calls : list Call) (w : World) :
  dlsym_halMemAlloc = None \/ dlsym_halMemFree = None ->
  List.Forall (fun p => p = 0) (fst (run calls (initial w))) /\
  hal_requests (log (snd (run calls (initial w)))) = [] /\
  world (snd (run calls (initial w))) = w.
Proof.
intros Hm.
assert (Ha : available = false).
{ unfold available. destruct Hm as [-> | ->]; [|destruct dlsym_halMemAlloc]; reflexivity. }
destruct (run_extends calls _ (initial_consistent w)) as [_ Hq _ _ Hw].
rewrite Ha in Hq. destruct (Hw Ha) as [Hw' Hr]. repeat split.
- revert Hr. unfold returned.
  induction (fst (run calls (initial w))) as [|p ps IH]; simpl; [constructor|].
  destruct (p =? 0) eqn:Hp; simpl; [|discriminate].
  intros Hr. constructor; [lia | auto].
- exact Hq.
- exact Hw'.
Qed.

(** X16. The non-null pointers returned by [aicpu_device_malloc] over a
    sequence of calls are exactly the pointers written by the calls of
    [halMemAlloc] that returned 0 with a non-null pointer, in order: a pointer
    written by a call that reported an error is dropped, and none is made
    up. *)
Theorem run_returns_allocated (calls : list Call) (w : World) :
  returned (fst (run calls (initial w))) =
  hal_allocated (log (snd (run calls (initial w)))).
Proof.
destruct (run_extends calls _ (initial_consistent w)) as [_ _ Hl _ _].
exact (eq_sym Hl).
Qed.

End Hal.

(** A HAL that hands out consecutive addresses and accepts every free. *)
Definition sim_halMemAlloc : HalMemAllocFn Z :=
  fun next size _ => (0, next, next + size).

Definition sim_halMemFree : HalMemFreeFn Z :=
  fun next _ => (0, next).

Lemma run_hal_requests_witness :
  hal_requests
    (log Z (snd (run Z (Some sim_halMemAlloc) (Some sim_halMemFree)
                   [CallMalloc 16; CallFree 0; CallFree 4096; CallMalloc 8]
                   (initial Z 4096)))) =
  [CallMalloc 16; CallFree 4096; CallMalloc 8].
Proof.
exact (proj1 (run_hal_requests Z (Some sim_halMemAlloc) (Some sim_halMemFree)
                sim_halMemAlloc sim_halMemFree
                [CallMalloc 16; CallFree 0; CallFree 4096; CallMalloc 8] 4096
                eq_refl eq_refl)).
Defined.

Lemma run_symbol_missing_witness :
  fst (run Z (Some sim_halMemAlloc) None
         [CallMalloc 16; CallFree 4096; CallMalloc 8] (initial Z 4096)) = [0; 0] /\
  world Z (snd (run Z (Some sim_halMemAlloc) None
                  [CallMalloc 16; CallFree 4096; CallMalloc 8] (initial Z 4096))) = 4096.
Proof.
destruct (run_symbol_missing Z (Some sim_halMemAlloc) None
            [CallMalloc 16; CallFree 4096; CallMalloc 8] 4096 (or_intror eq_refl))
  as (_ & _ & Hw).
split; [reflexivity | exact Hw].
Defined.

(** A HAL whose second allocation fails with a pointer written all the same. *)
Example run_drops_failed_allocation :
  fst (run Z (Some (fun next size _ => (if next =? 4096 then 0 else 7, next, next + size)))
         (Some sim_halMemFree) [CallMalloc 16; CallMalloc 8] (initial Z 4096)) = [4096; 0].
Proof. reflexivity. Qed.

End DeviceMalloc.

(** ** The Runtime instance

    [runtime.h], which declares [Runtime], its task store and its bookkeeping
    methods, is not among the sources.  The records below have the fields that
    the sources read and write, and the task of the design document. *)

(** Modelled from the spec: the enumeration [CoreType] of [runtime.h]; the
    sources name [CoreType::AIV], and a block has AIC and AIV cores. *)
Inductive CoreType := AIC | AIV.

(** Modelled from the spec: the task record of [runtime.h], as section 3
    describes it: function identifier, arguments, core type, the publication
    and completion flags, the count of pending predecessors and the outgoing
    set. *)
Record Task := {
  func_id : Z;
  args : list Z;
  core_type : CoreType;
  flags : Z;
  published : bool;
  complete : bool;
  fanin : Z;
  fanout : list nat
}.

(** Modelled from the spec: [TensorPair] of [runtime.h]; the fields are those
    [validate_runtime_impl] reads ([pair_dev_ptr] is its [dev_ptr]). *)
Record TensorPair := {
  host_ptr : Z;
  pair_dev_ptr : Z;
  size : Z
}.

(** Modelled from the spec: [DeviceAlloc] of [runtime.h]; [validate_runtime_impl]
    reads its [dev_ptr]. *)
Record DeviceAlloc := {
  dev_ptr : Z
}.

(** Modelled from the spec: [Runtime] of [runtime.h], with the fields the
    sources use: the task store, the function address table, the orchestration
    arguments, the embedded delegate and its entry name, the build mode and the
    two bookkeeping collections.  [host_api] and [aicpu_build_api], its tables
    of function pointers, are passed to the functions that call them. *)
Record Runtime := {
  tasks : list Task;
  kernel_addrs : list Z;
  orch_args : list Z;
  orch_argc : Z;
  aicpu_orch_so : list Z;
  aicpu_orch_func_name : string;
  build_mode : Z;
  tensor_pairs : list TensorPair;
  device_allocs : list DeviceAlloc
}.

Definition set_tasks (ts : list Task) (r : Runtime) : Runtime :=
  {| tasks := ts; kernel_addrs := kernel_addrs r; orch_args := orch_args r;
     orch_argc := orch_argc r; aicpu_orch_so := aicpu_orch_so r;
     aicpu_orch_func_name := aicpu_orch_func_name r; build_mode := build_mode r;
     tensor_pairs := tensor_pairs r; device_allocs := device_allocs r |}.

Definition set_orch_args (a : list Z) (r : Runtime) : Runtime :=
  {| tasks := tasks r; kernel_addrs := kernel_addrs r; orch_args := a;
     orch_argc := orch_argc r; aicpu_orch_so := aicpu_orch_so r;
     aicpu_orch_func_name := aicpu_orch_func_name r; build_mode := build_mode r;
     tensor_pairs := tensor_pairs r; device_allocs := device_allocs r |}.

Definition set_orch_argc (n : Z) (r : Runtime) : Runtime :=
  {| tasks := tasks r; kernel_addrs := kernel_addrs r; orch_args := orch_args r;
     orch_argc := n; aicpu_orch_so := aicpu_orch_so r;
     aicpu_orch_func_name := aicpu_orch_func_name r; build_mode := build_mode r;
     tensor_pairs := tensor_pairs r; device_allocs := device_allocs r |}.

Definition set_aicpu_orch_so (b : list Z) (r : Runtime) : Runtime :=
  {| tasks := tasks r; kernel_addrs := kernel_addrs r; orch_args := orch_args r;
     orch_argc := orch_argc r; aicpu_orch_so := b;
     aicpu_orch_func_name := aicpu_orch_func_name r; build_mode := build_mode r;
     tensor_pairs := tensor_pairs r; device_allocs := device_allocs r |}.

Definition set_aicpu_orch_func_name (n : string) (r : Runtime) : Runtime :=
  {| tasks := tasks r; kernel_addrs := kernel_addrs r; orch_args := orch_args r;
     orch_argc := orch_argc r; aicpu_orch_so := aicpu_orch_so r;
     aicpu_orch_func_name := n; build_mode := build_mode r;
     tensor_pairs := tensor_pairs r; device_allocs := device_allocs r |}.

Definition set_build_mode (m : Z) (r : Runtime) : Runtime :=
  {| tasks := tasks r; kernel_addrs := kernel_addrs r; orch_args := orch_args r;
     orch_argc := orch_argc r; aicpu_orch_so := aicpu_orch_so r;
     aicpu_orch_func_name := aicpu_orch_func_name r; build_mode := m;
     tensor_pairs := tensor_pairs r; device_allocs := device_allocs r |}.

Definition set_tensor_pairs (l : list TensorPair) (r : Runtime) : Runtime :=
  {| tasks := tasks r; kernel_addrs := kernel_addrs r; orch_args := orch_args r;
     orch_argc := orch_argc r; aicpu_orch_so := aicpu_orch_so r;
     aicpu_orch_func_name := aicpu_orch_func_name r; build_mode := build_mode r;
     tensor_pairs := l; device_allocs := device_allocs r |}.

Definition set_device_allocs (l : list DeviceAlloc) (r : Runtime) : Runtime :=
  {| tasks := tasks r; kernel_addrs := kernel_addrs r; orch_args := orch_args r;
     orch_argc := orch_argc r; aicpu_orch_so := aicpu_orch_so r;
     aicpu_orch_func_name := aicpu_orch_func_name r; build_mode := build_mode r;
     tensor_pairs := tensor_pairs r; device_allocs := l |}.

(** The entry of a C array at index [i]; the arrays the callers pass are long
    enough for every index that is read. *)
Definition at_index (l : list Z) (i : Z) : Z := nth (Z.to_nat i) l 0.

(** [kernel_addrs[func_id] != 0]: a device address is registered. *)
Definition has_kernel (r : Runtime) (f : Z) : bool :=
  (0 <=? f) && (f <? Z.of_nat (length (kernel_addrs r))) && negb (at_index (kernel_addrs r) f =? 0).

(** ** The task-graph Builder API

    [add_task], [add_successor_conditional] and [publish_task] are defined in
    [runtime.cpp], which is not among the sources (only their caller, the
    orchestration delegate, is); so is the completion step of the scheduler.
    They are modelled from sections 3, 4.2 and 5 of the design document. *)

Module GraphStore.

Definition set_published (x : Task) : Task :=
  {| func_id := func_id x; args := args x; core_type := core_type x; flags := flags x;
     published := true; complete := complete x; fanin := fanin x; fanout := fanout x |}.

Definition set_complete (x : Task) : Task :=
  {| func_id := func_id x; args := args x; core_type := core_type x; flags := flags x;
     published := published x; complete := true; fanin := fanin x; fanout := fanout x |}.

Definition add_fanin (d : Z) (x : Task) : Task :=
  {| func_id := func_id x; args := args x; core_type := core_type x; flags := flags x;
     published := published x; complete := complete x; fanin := fanin x + d;
     fanout := fanout x |}.

Definition push_fanout (s : nat) (x : Task) : Task :=
  {| func_id := func_id x; args := args x; core_type := core_type x; flags := flags x;
     published := published x; complete := complete x; fanin := fanin x;
     fanout := fanout x ++ [s] |}.

Definition task_count (r : Runtime) : nat := length (tasks r).

(** An identifier names an existing task. *)
Definition valid_id (r : Runtime) (t : Z) : bool :=
  (0 <=? t) && (t <? Z.of_nat (task_count r)).

Definition task_published (r : Runtime) (t : nat) : bool :=
  match tasks r !! t with Some x => published x | None => false end.

Definition task_complete (r : Runtime) (t : nat) : bool :=
  match tasks r !! t with Some x => complete x | None => false end.

(** The pending-predecessor count of task [t]. *)
Definition task_fanin (r : Runtime) (t : nat) : Z :=
  match tasks r !! t with Some x => fanin x | None => 0 end.

(** [p] is a predecessor of [t]: [t] is in the outgoing set of [p]. *)
Definition predecessor (r : Runtime) (p t : nat) : Prop :=
  exists x, tasks r !! p = Some x /\ In t (fanout x).

(** Eligible for dispatch: published, and the pending-predecessor count has
    reached zero. *)
Definition dispatch_eligible (r : Runtime) (t : nat) : bool :=
  task_published r t && (task_fanin r t =? 0).

(** The dispatch set: the tasks that are eligible for dispatch. *)
Definition dispatch_set (r : Runtime) : list nat :=
  filter (fun t => dispatch_eligible r t = true) (seq 0 (task_count r)).

Definition FAILURE : Z := -1.
Definition SUCCESS : Z := 0.

(** A Runtime as constructed: no task, nothing recorded. *)
Definition fresh_runtime (addrs : list Z) : Runtime :=
  {| tasks := []; kernel_addrs := addrs; orch_args := []; orch_argc := 0;
     aicpu_orch_so := []; aicpu_orch_func_name := ""; build_mode := 0;
     tensor_pairs := []; device_allocs := [] |}.

Section Builder.

(** The capacity of the store and the per-task argument limit, constants of
    [runtime.h]. *)
Variable RUNTIME_MAX_TASKS : nat.
Variable RUNTIME_MAX_ARGS : Z.

(** A fresh task: unpublished, not complete, no edge. *)
Definition new_task (a : list Z) (arg_count f : Z) (c : CoreType) (fl : Z) : Task :=
  {| func_id := f; args := take (Z.to_nat arg_count) a; core_type := c; flags := fl;
     published := false; complete := false; fanin := 0; fanout := [] |}.

(** Modelled from the spec: [add_task] of [runtime.cpp] (section 4.2).  It
    allocates the next dense identifier, copies the arguments, records the
    function identifier and the core type; it fails when the store is at
    capacity, when [arg_count] exceeds the per-task limit, or when [func_id]
    has no registered device address. *)
Definition add_task (r : Runtime) (a : list Z) (arg_count f : Z) (c : CoreType) (fl : Z)
  : Z * Runtime :=
  if (RUNTIME_MAX_TASKS <=? task_count r)%nat then (FAILURE, r)
  else if RUNTIME_MAX_ARGS <? arg_count then (FAILURE, r)
  else if negb (has_kernel r f) then (FAILURE, r)
  else (Z.of_nat (task_count r),
        set_tasks (tasks r ++ [new_task a arg_count f c fl]) r).

(** Modelled from the spec: [add_successor_conditional] of [runtime.cpp]
    (section 4.2).  It fails when an identifier is out of range or when the
    successor is published; otherwise it appends the successor to the outgoing
    set of the predecessor and increments the pending-predecessor count of the
    successor. *)
Definition add_successor_conditional (r : Runtime) (predecessor_id successor_id : Z)
  : Z * Runtime :=
  if negb (valid_id r predecessor_id) then (FAILURE, r)
  else if negb (valid_id r successor_id) then (FAILURE, r)
  else if task_published r (Z.to_nat successor_id) then (FAILURE, r)
  else
    let p := Z.to_nat predecessor_id in
    let s := Z.to_nat successor_id in
    (SUCCESS,
     set_tasks (alter (add_fanin 1) s (alter (push_fanout s) p (tasks r))) r).

(** Modelled from the spec: [publish_task] of [runtime.cpp] (section 4.2).  It
    fails when the identifier is invalid or the task is published already;
    otherwise it sets the published flag. *)
Definition publish_task (r : Runtime) (task_id : Z) : Z * Runtime :=
  if negb (valid_id r task_id) then (FAILURE, r)
  else if task_published r (Z.to_nat task_id) then (FAILURE, r)
  else (SUCCESS, set_tasks (alter set_published (Z.to_nat task_id) (tasks r)) r).

(** Modelled from the spec: the completion step of the scheduler (sections 3
    and 5), which is not among the sources.  A task that is eligible for
    dispatch and has not run is marked complete, and the pending-predecessor
    count of each task of its outgoing set is decremented. *)
Definition complete_task (r : Runtime) (t : nat) : Runtime :=
  match tasks r !! t with
  | Some x =>
      if dispatch_eligible r t && negb (complete x)
      then set_tasks (foldr (fun s ts => alter (add_fanin (-1)) s ts)
                            (alter set_complete t (tasks r)) (fanout x)) r
      else r
  | None => r
  end.

(** A call of the Builder API. *)
Inductive BuilderCall :=
| CallAddTask (a : list Z) (arg_count f : Z) (c : CoreType) (fl : Z)
| CallAddSuccessor (predecessor_id successor_id : Z)
| CallPublish (task_id : Z).

Definition run_call (r : Runtime) (c : BuilderCall) : Runtime :=
  match c with
  | CallAddTask a n f c fl => snd (add_task r a n f c fl)
  | CallAddSuccessor p s => snd (add_successor_conditional r p s)
  | CallPublish t => snd (publish_task r t)
  end.

(** The build phase, then the execution phase. *)
Definition build (calls : list BuilderCall) (r : Runtime) : Runtime :=
  fold_left run_call calls r.

Definition execute (done : list nat) (r : Runtime) : Runtime :=
  fold_left complete_task done r.

(** Building and executing at the same time: calls of the Builder API and
    completions in any order. *)
Inductive Op :=
| OpCall (c : BuilderCall)
| OpComplete (t : nat).

Definition run_op (r : Runtime) (op : Op) : Runtime :=
  match op with
  | OpCall c => run_call r c
  | OpComplete t => complete_task r t
  end.

Definition run (ops : list Op) (r : Runtime) : Runtime := fold_left run_op ops r.

(** No edge is declared from a task that is complete already. *)
Fixpoint edges_from_pending (ops : list Op) (r : Runtime) : bool :=
  match ops with
  | [] => true
  | op :: ops' =>
      match op with
      | OpCall (CallAddSuccessor p _) => negb (valid_id r p && task_complete r (Z.to_nat p))
      | _ => true
      end && edges_from_pending ops' (run_op r op)
  end.

(** What a task adds to the pending count of [t]: one per occurrence of [t]
    in its outgoing set, until it is complete. *)
Definition contrib (x : Task) (t : nat) : Z :=
  if complete x then 0 else Z.of_nat (count_occ Nat.eq_dec (fanout x) t).

Fixpoint pending (ts : list Task) (t : nat) : Z :=
  match ts with
  | [] => 0
  | x :: ts' => contrib x t + pending ts' t
  end.

(** Every edge leads to a task of the store. *)
Definition edges_valid (ts : list Task) : Prop :=
  forall p x s, ts !! p = Some x -> In s (fanout x) -> (s < length ts)%nat.

(** The counter of each task counts its predecessors that are not complete. *)
Definition counts_ok (ts : list Task) : Prop :=
  forall t x, ts !! t = Some x -> fanin x = pending ts t.

Definition none_complete (ts : list Task) : Prop :=
  forall p x, ts !! p = Some x -> complete x = false.

Definition wf (ts : list Task) : Prop := edges_valid ts /\ counts_ok ts.

(** *** The counters and the edges *)

Lemma contrib_nonneg x t : 0 <= contrib x t.
Proof. unfold contrib. destruct (complete x); lia. Qed.

Lemma pending_nonneg ts t : 0 <= pending ts t.
Proof.
  induction ts as [|x ts IH]; simpl; [lia|].
  pose proof (contrib_nonneg x t). lia.
Qed.

Lemma pending_app ts1 ts2 t : pending (ts1 ++ ts2) t = pending ts1 t + pending ts2 t.
Proof. induction ts1 as [|x ts1 IH]; simpl; lia. Qed.

Lemma pending_alter_same (f : Task -> Task) (i : nat) (ts : list Task) (t : nat) :
  (forall x, contrib (f x) t = contrib x t) ->
  pending (alter f i ts) t = pending ts t.
Proof.
  intros Hf. revert i. induction ts as [|x ts IH]; intros [|i]; simpl; try reflexivity.
  - now rewrite Hf.
  - f_equal. apply IH.
Qed.

Lemma pending_alter (f : Task -> Task) (i : nat) (ts : list Task) (x : Task) (t : nat) :
  ts !! i = Some x ->
  pending (alter f i ts) t = pending ts t + (contrib (f x) t - contrib x t).
Proof.
  revert i. induction ts as [|y ts IH]; intros [|i] H; simpl in *; try discriminate.
  - injection H as ->. lia.
  - pose proof (IH _ H) as E. unfold alter in E. rewrite E. lia.
Qed.

Lemma pending_zero_iff ts t :
  pending ts t = 0 <->
  (forall p x, ts !! p = Some x -> In t (fanout x) -> complete x = true).
Proof.
  induction ts as [|y ts IH]; simpl.
  - split; [intros _ p x H; destruct p; discriminate | reflexivity].
  - pose proof (contrib_nonneg y t). pose proof (pending_nonneg ts t). split.
    + intros Hz [|p] x Hx Hin; simpl in Hx.
      * injection Hx as ->. unfold contrib in *.
        destruct (complete x); [reflexivity|].
        apply (count_occ_In Nat.eq_dec) in Hin. lia.
      * apply (proj1 IH ltac:(lia) p x Hx Hin).
    + intros Hall.
      assert (Hy : contrib y t = 0).
      { unfold contrib. destruct (complete y) eqn:E; [reflexivity|].
        destruct (count_occ Nat.eq_dec (fanout y) t) eqn:Ec; [reflexivity|].
        assert (Hin : In t (fanout y)) by (apply (count_occ_In Nat.eq_dec); lia).
        specialize (Hall O y eq_refl Hin). congruence. }
      assert (Hts : pending ts t = 0).
      { apply IH. intros p x Hx Hin. exact (Hall (S p) x Hx Hin). }
      lia.
Qed.

Lemma pending_out_of_range ts t :
  edges_valid ts -> (length ts <= t)%nat -> pending ts t = 0.
Proof.
  intros Hv Hle. apply pending_zero_iff. intros p x Hx Hin.
  specialize (Hv p x t Hx Hin). lia.
Qed.

Lemma contrib_add_fanin d x t : contrib (add_fanin d x) t = contrib x t.
Proof. reflexivity. Qed.

Lemma contrib_set_published x t : contrib (set_published x) t = contrib x t.
Proof. reflexivity. Qed.

Lemma contrib_push_fanout s x t :
  complete x = false ->
  contrib (push_fanout s x) t = contrib x t + (if Nat.eq_dec s t then 1 else 0).
Proof.
  intros Hc. unfold contrib. simpl. rewrite Hc, count_occ_app. simpl.
  destruct (Nat.eq_dec s t); lia.
Qed.

Lemma contrib_set_complete x t :
  complete x = false ->
  contrib (set_complete x) t = contrib x t - Z.of_nat (count_occ Nat.eq_dec (fanout x) t).
Proof. intros Hc. unfold contrib. simpl. rewrite Hc. lia. Qed.

(** The decrements of a completion: the counter of [u] goes down by the
    number of times [u] occurs in the outgoing set; nothing else changes. *)
Lemma decrements_lookup (l : list nat) : forall (ts : list Task) (u : nat) (y : Task),
  foldr (fun s ts => alter (add_fanin (-1)) s ts) ts l !! u = Some y ->
  exists x, ts !! u = Some x /\
            fanin y = fanin x - Z.of_nat (count_occ Nat.eq_dec l u) /\
            complete y = complete x /\ fanout y = fanout x /\ published y = published x.
Proof.
  induction l as [|s l IH]; intros ts u y H; simpl in *.
  - exists y. repeat split; try exact H. lia.
  - destruct (Nat.eq_dec s u) as [->|Hne].
    + rewrite list_lookup_alter_eq in H.
      destruct (foldr _ ts l !! u) as [z|] eqn:Ez; [|discriminate].
      injection H as <-. destruct (IH ts u z Ez) as (x & Hx & Hf & Hc & Ho & Hp).
      exists x. simpl. repeat split; try assumption. lia.
    + rewrite list_lookup_alter_ne in H by exact Hne.
      destruct (IH ts u y H) as (x & Hx & Hf & Hc & Ho & Hp).
      exists x. repeat split; try assumption.
Qed.

Lemma decrements_length (l : list nat) (ts : list Task) :
  length (foldr (fun s ts => alter (add_fanin (-1)) s ts) ts l) = length ts.
Proof.
  induction l as [|s l IH]; simpl; [reflexivity|]. now rewrite length_alter.
Qed.

Lemma decrements_pending (l : list nat) (ts : list Task) (t : nat) :
  pending (foldr (fun s ts => alter (add_fanin (-1)) s ts) ts l) t = pending ts t.
Proof.
  induction l as [|s l IH]; simpl; [reflexivity|].
  rewrite pending_alter_same by (intros; apply contrib_add_fanin). exact IH.
Qed.

(** *** The build phase keeps the store well formed *)

Lemma wf_nil : wf [] /\ none_complete [].
Proof.
  repeat split; intros p x; intros; destruct p; discriminate.
Qed.

Lemma add_task_wf r a n f c fl :
  wf (tasks r) -> wf (tasks (snd (add_task r a n f c fl))).
Proof.
  intros [Hv Hc]. unfold add_task.
  destruct (_ <=? _)%nat; [now split|].
  destruct (_ <? _); [now split|].
  destruct (negb _); [now split|].
  simpl. set (x0 := new_task a n f c fl).
  split.
  - intros p x s Hx Hin. rewrite length_app. simpl.
    apply lookup_app_Some in Hx as [Hx | [Hlen Hx]].
    + specialize (Hv p x s Hx Hin). lia.
    + destruct (p - length (tasks r))%nat; simpl in Hx; [|discriminate].
      injection Hx as <-. destruct Hin.
  - intros t x Hx. rewrite pending_app. simpl.
    change (contrib x0 t) with 0.
    apply lookup_app_Some in Hx as [Hx | [Hlen Hx]].
    + rewrite (Hc t x Hx). lia.
    + destruct (t - length (tasks r))%nat; simpl in Hx; [|discriminate].
      injection Hx as <-. simpl.
      rewrite (pending_out_of_range _ _ Hv Hlen). lia.
Qed.


Lemma valid_id_lookup r t :
  valid_id r t = true -> exists x, tasks r !! Z.to_nat t = Some x.
Proof.
  unfold valid_id, task_count. intros H. apply andb_prop in H as [H1 H2].
  apply lookup_lt_is_Some. lia.
Qed.

(** An edge keeps the counters right as long as its predecessor is not
    complete yet. *)
Lemma add_successor_wf r p s :
  wf (tasks r) -> task_complete r (Z.to_nat p) = false ->
  wf (tasks (snd (add_successor_conditional r p s))).
Proof.
  intros [Hv Hc] Hn. unfold add_successor_conditional.
  destruct (valid_id r p) eqn:Ep; simpl; [|now split].
  destruct (valid_id r s) eqn:Es; simpl; [|now split].
  destruct (task_published r (Z.to_nat s)); [now split|].
  simpl. destruct (valid_id_lookup _ _ Ep) as [xp Hxp].
  destruct (valid_id_lookup _ _ Es) as [xs Hxs].
  unfold task_complete in Hn. rewrite Hxp in Hn.
  set (pn := Z.to_nat p) in *. set (sn := Z.to_nat s) in *.
  assert (Hlen : (sn < length (tasks r))%nat) by (apply lookup_lt_is_Some; eauto).
  split.
  - intros q y u Hy Hin. rewrite !length_alter.
    rewrite list_lookup_alter in Hy.
    destruct (decide (sn = q)) as [<-|Hq].
    + destruct (alter (push_fanout sn) pn (tasks r) !! sn) as [z|] eqn:Ez; [|discriminate].
      simpl in Hy. injection Hy as <-. simpl in Hin.
      rewrite list_lookup_alter in Ez.
      destruct (decide (pn = sn)) as [E|E].
      * rewrite Hxp in Ez. injection Ez as <-. simpl in Hin.
        apply in_app_or in Hin as [Hin | [<- | []]]; [|exact Hlen].
        exact (Hv pn xp u Hxp Hin).
      * exact (Hv sn z u Ez Hin).
    + rewrite list_lookup_alter in Hy.
      destruct (decide (pn = q)) as [<-|E].
      * rewrite Hxp in Hy. injection Hy as <-. simpl in Hin.
        apply in_app_or in Hin as [Hin | [<- | []]]; [|exact Hlen].
        exact (Hv pn xp u Hxp Hin).
      * exact (Hv q y u Hy Hin).
  - intros t y Hy.
    rewrite pending_alter_same by (intros; apply contrib_add_fanin).
    rewrite (pending_alter _ _ _ _ _ Hxp).
    rewrite (contrib_push_fanout _ _ _ Hn).
    assert (Hfan : forall q z, alter (push_fanout sn) pn (tasks r) !! q = Some z ->
                     exists x, tasks r !! q = Some x /\ fanin z = fanin x).
    { intros q z Hz. rewrite list_lookup_alter in Hz.
      destruct (decide (pn = q)) as [<-|E].
      - rewrite Hxp in Hz. injection Hz as <-. eauto.
      - eauto. }
    rewrite list_lookup_alter in Hy.
    destruct (decide (sn = t)) as [<-|E].
    + destruct (alter (push_fanout sn) pn (tasks r) !! sn) as [z|] eqn:Ez; [|discriminate].
      injection Hy as <-. destruct (Hfan _ _ Ez) as (x & Hx & Hf).
      simpl. rewrite Hf, (Hc _ _ Hx).
      destruct (Nat.eq_dec sn sn); [lia | congruence].
    + destruct (Hfan _ _ Hy) as (x & Hx & Hf).
      rewrite Hf, (Hc _ _ Hx).
      destruct (Nat.eq_dec sn t); [congruence | lia].
Qed.


Lemma publish_lookup r t q z :
  alter set_published t (tasks r) !! q = Some z ->
  exists x, tasks r !! q = Some x /\ fanin z = fanin x /\
            fanout z = fanout x /\ complete z = complete x.
Proof.
  intros Hz. rewrite list_lookup_alter in Hz.
  destruct (decide (t = q)) as [<-|E].
  - destruct (tasks r !! t) as [x|]; [|discriminate].
    injection Hz as <-. eauto.
  - eauto.
Qed.

Lemma publish_wf r t : wf (tasks r) -> wf (tasks (snd (publish_task r t))).
Proof.
  intros [Hv Hc]. unfold publish_task.
  destruct (valid_id r t); simpl; [|now split].
  destruct (task_published r (Z.to_nat t)); [now split|].
  simpl. split.
  - intros q y u Hy Hin. rewrite length_alter.
    destruct (publish_lookup _ _ _ _ Hy) as (x & Hx & _ & Ho & _). rewrite Ho in Hin.
    exact (Hv _ _ _ Hx Hin).
  - intros q y Hy.
    rewrite pending_alter_same by (intros; apply contrib_set_published).
    destruct (publish_lookup _ _ _ _ Hy) as (x & Hx & Hf & _). rewrite Hf.
    exact (Hc _ _ Hx).
Qed.





(** *** The execution phase keeps it well formed *)

Lemma complete_task_inv r t : wf (tasks r) -> wf (tasks (complete_task r t)).
Proof.
  intros [Hv Hc]. unfold complete_task.
  destruct (tasks r !! t) as [x|] eqn:Hx; [|now split].
  destruct (dispatch_eligible r t && negb (complete x)) eqn:E; [|now split].
  apply andb_prop in E as [_ Ecm]. apply negb_true_iff in Ecm.
  simpl.
  assert (Hlk : forall q z, alter set_complete t (tasks r) !! q = Some z ->
                  exists y, tasks r !! q = Some y /\ fanin z = fanin y /\
                            fanout z = fanout y).
  { intros q z Hz. rewrite list_lookup_alter in Hz.
    destruct (decide (t = q)) as [<-|Eq].
    - rewrite Hx in Hz. injection Hz as <-. eauto.
    - eauto. }
  split.
  - intros q y u Hy Hin. rewrite decrements_length, length_alter.
    apply decrements_lookup in Hy as (z & Hz & _ & _ & Ho & _).
    destruct (Hlk _ _ Hz) as (w & Hw & _ & Ho'). rewrite Ho, Ho' in Hin.
    exact (Hv _ _ _ Hw Hin).
  - intros u y Hy. rewrite decrements_pending.
    rewrite (pending_alter _ _ _ _ _ Hx), (contrib_set_complete _ _ Ecm).
    apply decrements_lookup in Hy as (z & Hz & Hf & _).
    destruct (Hlk _ _ Hz) as (w & Hw & Hf' & _).
    rewrite Hf, Hf', (Hc _ _ Hw). lia.
Qed.


Lemma wf_dispatch_eligible r t :
  wf (tasks r) ->
  dispatch_eligible r t = true <->
  task_published r t = true /\
  (forall p, predecessor r p t -> task_complete r p = true).
Proof.
  intros [Hv Hc]. unfold dispatch_eligible, task_published, task_fanin, predecessor,
    task_complete.
  destruct (tasks r !! t) as [x|] eqn:Hx.
  - rewrite andb_true_iff, Z.eqb_eq, (Hc _ _ Hx), pending_zero_iff.
    split; intros [Hp Hall]; (split; [exact Hp|]).
    + intros p (y & Hy & Hin). rewrite Hy. exact (Hall _ _ Hy Hin).
    + intros p y Hy Hin. specialize (Hall p (ex_intro _ y (conj Hy Hin))).
      now rewrite Hy in Hall.
  - simpl. split; [discriminate | intros [H _]; discriminate].
Qed.

(** With builder calls and completions interleaved, the store stays well
    formed as long as no edge starts at a complete task. *)
Lemma run_wf ops : forall r,
  wf (tasks r) -> edges_from_pending ops r = true -> wf (tasks (run ops r)).
Proof.
  induction ops as [|op ops IH]; intros r Hw He; simpl in *; [exact Hw|].
  apply andb_prop in He as [Hop He]. apply IH; [|exact He].
  destruct op as [[a n f c fl | p s | t] | t]; simpl.
  - now apply add_task_wf.
  - destruct (valid_id r p) eqn:Ep.
    + apply add_successor_wf; [exact Hw|]. simpl in Hop. now apply negb_true_iff in Hop.
    + unfold add_successor_conditional. now rewrite Ep.
  - now apply publish_wf.
  - now apply complete_task_inv.
Qed.

Lemma interleaved_dispatch_eligible_iff (addrs : list Z) (ops : list Op) (t : nat) :
  edges_from_pending ops (fresh_runtime addrs) = true ->
  dispatch_eligible (run ops (fresh_runtime addrs)) t = true <->
  task_published (run ops (fresh_runtime addrs)) t = true /\
  (forall p, predecessor (run ops (fresh_runtime addrs)) p t ->
             task_complete (run ops (fresh_runtime addrs)) p = true).
Proof.
  intros He. apply wf_dispatch_eligible, run_wf; [apply wf_nil | exact He].
Qed.

(** *** The properties of the design document *)


(** C2. [add_successor_conditional] from an identifier that names no task,
    or to an identifier that is out of range or names a published task,
    returns the failure status and leaves the Runtime as it was. *)
Theorem add_successor_conditional_rejects (r : Runtime) (p s : Z) :
  valid_id r p = false \/ valid_id r s = false \/
    task_published r (Z.to_nat s) = true ->
  add_successor_conditional r p s = (FAILURE, r).
Proof.
  unfold add_successor_conditional. intros [H | [H | H]].
  - now rewrite H.
  - rewrite H. now destruct (valid_id r p).
  - rewrite H. now destruct (valid_id r p), (valid_id r s).
Qed.

Lemma dispatch_set_NoDup r : NoDup (dispatch_set r).
Proof. unfold dispatch_set. apply NoDup_filter, NoDup_seq. Qed.

(** C3. After a successful [publish_task], a second [publish_task] of the
    same task returns the failure status and changes nothing: the task stays
    published and is in the dispatch set at most once. *)
Theorem publish_task_twice (r : Runtime) (t : Z) :
  fst (publish_task r t) = SUCCESS ->
  let r1 := snd (publish_task r t) in
  publish_task r1 t = (FAILURE, r1) /\
  task_published (snd (publish_task r1 t)) (Z.to_nat t) = true /\
  dispatch_set (snd (publish_task r1 t)) = dispatch_set r1 /\
  (count_occ Nat.eq_dec (dispatch_set (snd (publish_task r1 t))) (Z.to_nat t) <= 1)%nat.
Proof.
  intros Hok r1.
  assert (Hpub : valid_id r1 t = true /\ task_published r1 (Z.to_nat t) = true).
  { subst r1. unfold publish_task in *.
    destruct (valid_id r t) eqn:Ev; simpl in *; [|discriminate].
    destruct (task_published r (Z.to_nat t)) eqn:Ep; simpl in *; [discriminate|].
    destruct (valid_id_lookup _ _ Ev) as [x Hx]. split.
    - unfold valid_id, task_count in *. simpl. now rewrite length_alter.
    - unfold task_published. simpl. now rewrite list_lookup_alter_eq, Hx. }
  destruct Hpub as [Hv Hp].
  assert (E : publish_task r1 t = (FAILURE, r1)).
  { unfold publish_task. now rewrite Hv, Hp. }
  rewrite E. simpl. repeat split; try assumption.
  apply NoDup_count_occ, NoDup_ListNoDup, dispatch_set_NoDup.
Qed.

End Builder.

(** The diamond of the vector example, built as the delegate builds it. *)
Definition diamond_calls : list BuilderCall :=
  [ CallAddTask [10; 11; 12; 4] 4 0 AIV 0; CallPublish 0;
    CallAddTask [12; 1; 13; 4] 4 1 AIV 0; CallAddSuccessor 0 1; CallPublish 1;
    CallAddTask [12; 2; 14; 4] 4 1 AIV 0; CallAddSuccessor 0 2; CallPublish 2;
    CallAddTask [13; 14; 15; 4] 4 2 AIV 0; CallAddSuccessor 1 3; CallAddSuccessor 2 3;
    CallPublish 3 ].

Definition diamond : Runtime := build 16 16 diamond_calls (fresh_runtime [100; 200; 300]).

Example diamond_dispatch_set : dispatch_set diamond = [0%nat].
Proof. reflexivity. Qed.

Example diamond_after_t0 : dispatch_set (execute [0%nat] diamond) = [0; 1; 2]%nat.
Proof. reflexivity. Qed.

Example diamond_t3_waits : dispatch_set (execute [0; 3; 1]%nat diamond) = [0; 1; 2]%nat.
Proof. reflexivity. Qed.

Example diamond_all : dispatch_set (execute [0; 1; 2; 3]%nat diamond) = [0; 1; 2; 3]%nat.
Proof. reflexivity. Qed.

(** An edge from a task that is complete already is outside these results: as
    section 4.2 words [add_successor_conditional], the count it increments is
    never decremented. *)
Definition late_edge : list Op :=
  [ OpCall (CallAddTask [] 0 0 AIV 0); OpCall (CallPublish 0); OpComplete 0%nat;
    OpCall (CallAddTask [] 0 0 AIV 0); OpCall (CallAddSuccessor 0 1);
    OpCall (CallPublish 1) ].

Example late_edge_waits :
  let r := run 16 16 late_edge (fresh_runtime [100]) in
  edges_from_pending 16 16 late_edge (fresh_runtime [100]) = false /\
  task_published r 1 = true /\ task_complete r 0 = true /\
  dispatch_eligible r 1 = false.
Proof. repeat split; reflexivity. Qed.

Lemma add_successor_conditional_rejects_witness :
  add_successor_conditional diamond 7 3 = (FAILURE, diamond) /\
  add_successor_conditional diamond 0 (-1) = (FAILURE, diamond) /\
  add_successor_conditional diamond 0 3 = (FAILURE, diamond).
Proof.
  split; [|split].
  - apply (add_successor_conditional_rejects diamond 7 3). left. reflexivity.
  - apply (add_successor_conditional_rejects diamond 0 (-1)). right. left. reflexivity.
  - apply (add_successor_conditional_rejects diamond 0 3). right. right. reflexivity.
Defined.

(** The diamond before its last task is published. *)
Definition diamond_open : Runtime :=
  build 16 16 (removelast diamond_calls) (fresh_runtime [100; 200; 300]).

Lemma publish_task_twice_witness :
  fst (publish_task diamond_open 3) = SUCCESS /\
  let r1 := snd (publish_task diamond_open 3) in
  publish_task r1 3 = (FAILURE, r1) /\
  task_published (snd (publish_task r1 3)) (Z.to_nat 3) = true /\
  dispatch_set (snd (publish_task r1 3)) = dispatch_set r1 /\
  (count_occ Nat.eq_dec (dispatch_set (snd (publish_task r1 3))) (Z.to_nat 3) <= 1)%nat.
Proof.
  split; [vm_compute; reflexivity|].
  apply (publish_task_twice diamond_open 3). vm_compute. reflexivity.
Defined.

End GraphStore.

(** ** Host side: [init_runtime_impl] and [validate_runtime_impl] *)

Module RuntimeMaker.

Definition ARG_SCALAR : Z := 0.
Definition ARG_INPUT_PTR : Z := 1.
Definition ARG_OUTPUT_PTR : Z := 2.
Definition ARG_INOUT_PTR : Z := 3.

(** What the marshalling and the finalize do to the device and to the
    bookkeeping of the Runtime, in the order in which they do it. *)
Inductive Event :=
| EvDeviceMalloc (nbytes ptr : Z)
| EvCopyToDevice (dev host nbytes rc : Z)
| EvCopyFromDevice (host dev nbytes rc : Z)
| EvDeviceFree (ptr : Z)
| EvRecordDeviceAlloc (ptr : Z)
| EvRecordTensorPair (host dev nbytes : Z)
| EvWriteOrchArg (v : Z).

(** An event with the index of the loop iteration that caused it. *)
Definition Trace : Type := list (Z * Event).

Definition tag (i : Z) (evs : list Event) : Trace := map (pair i) evs.

Definition events_of (i : Z) (tr : Trace) : Trace :=
  List.filter (fun e => fst e =? i) tr.

(** The pointers that were freed, in order. *)
Fixpoint frees_of (tr : Trace) : list Z :=
  match tr with
  | [] => []
  | (_, EvDeviceFree p) :: tr' => p :: frees_of tr'
  | _ :: tr' => frees_of tr'
  end.

(** Modelled from the spec: [Runtime::record_device_alloc] of [runtime.h]; a
    device allocation record is created on allocation (section 3). *)
Definition record_device_alloc (p : Z) (r : Runtime) : Runtime :=
  set_device_allocs (device_allocs r ++ [{| dev_ptr := p |}]) r.

(** Modelled from the spec: [Runtime::record_tensor_pair] of [runtime.h]; it
    pairs a host address with a device address and a byte size (section 3). *)
Definition record_tensor_pair (h d n : Z) (r : Runtime) : Runtime :=
  set_tensor_pairs (tensor_pairs r ++ [{| host_ptr := h; pair_dev_ptr := d; size := n |}]) r.

(** Modelled from the spec: [Runtime::clear_tensor_pairs] of [runtime.h]. *)
Definition clear_tensor_pairs (r : Runtime) : Runtime := set_tensor_pairs [] r.

(** Modelled from the spec: [Runtime::clear_device_allocs] of [runtime.h]. *)
Definition clear_device_allocs (r : Runtime) : Runtime := set_device_allocs [] r.

(** Modelled from the spec: [Runtime::try_set_aicpu_orch_so] of [runtime.h];
    the delegate binary is embedded unless it is oversized (section 7). *)
Definition try_set_aicpu_orch_so (max_size : Z) (bin : list Z) (n : Z) (r : Runtime)
  : option Runtime :=
  if n <=? max_size then Some (set_aicpu_orch_so (take (Z.to_nat n) bin) r) else None.

(** [runtime->orch_args[i] = v]; [i] is below [RUNTIME_MAX_ORCH_ARGS], the
    length of the array. *)
Definition write_orch_arg (i v : Z) (r : Runtime) : Runtime :=
  set_orch_args (<[Z.to_nat i := v]> (orch_args r)) r.

(** The effect of an event on the Runtime. *)
Definition apply_event (r : Runtime) (e : Z * Event) : Runtime :=
  match snd e with
  | EvRecordDeviceAlloc p => record_device_alloc p r
  | EvRecordTensorPair h d n => record_tensor_pair h d n r
  | EvWriteOrchArg v => write_orch_arg (fst e) v r
  | _ => r
  end.

Section Host.

(** The device behind [runtime->host_api]: its state and its four
    operations. *)
Variable World : Type.

Record HostApi := {
  device_malloc : World -> Z -> Z * World;
  device_free : World -> Z -> World;
  copy_to_device : World -> Z -> Z -> Z -> Z * World;
  copy_from_device : World -> Z -> Z -> Z -> Z * World
}.

Variable host_api : HostApi.

(** The limits of [runtime.h], which is not among the sources. *)
Variable RUNTIME_MAX_ORCH_ARGS : Z.
Variable RUNTIME_MAX_AICPU_ORCH_SO_SIZE : Z.
Variable RUNTIME_MAX_FUNC_ID : Z.
(** [sizeof(runtime->aicpu_orch_func_name)]. *)
Variable ORCH_FUNC_NAME_SIZE : nat.

Record State := {
  rt : Runtime;
  world : World;
  trace : Trace
}.

(** A computation on the state that may return early with -1 ([None]). *)
Definition M (A : Type) : Type := State -> option A * State.

Definition ret {A} (a : A) : M A := fun st => (Some a, st).

Definition bind {A B} (m : M A) (k : A -> M B) : M B :=
  fun st =>
    match m st with
    | (Some a, st') => k a st'
    | (None, st') => (None, st')
    end.

Definition fail {A} : M A := fun st => (None, st).

#[local] Instance M_ret : MRet M := @ret.
#[local] Instance M_bind : MBind M := fun A B k m => bind m k.

(** An event that changes the Runtime only. *)
Definition emit (i : Z) (e : Event) : M unit :=
  fun st => (Some tt, {| rt := apply_event (rt st) (i, e); world := world st;
                         trace := trace st ++ [(i, e)] |}).

Definition call_device_malloc (i nbytes : Z) : M Z :=
  fun st =>
    let '(p, w) := device_malloc host_api (world st) nbytes in
    (Some p, {| rt := rt st; world := w;
                trace := trace st ++ [(i, EvDeviceMalloc nbytes p)] |}).

Definition call_copy_to_device (i dev host nbytes : Z) : M Z :=
  fun st =>
    let '(rc, w) := copy_to_device host_api (world st) dev host nbytes in
    (Some rc, {| rt := rt st; world := w;
                 trace := trace st ++ [(i, EvCopyToDevice dev host nbytes rc)] |}).

Definition call_copy_from_device (i host dev nbytes : Z) : M Z :=
  fun st =>
    let '(rc, w) := copy_from_device host_api (world st) host dev nbytes in
    (Some rc, {| rt := rt st; world := w;
                 trace := trace st ++ [(i, EvCopyFromDevice host dev nbytes rc)] |}).

Definition call_device_free (i p : Z) : M unit :=
  fun st =>
    (Some tt, {| rt := rt st; world := device_free host_api (world st) p;
                 trace := trace st ++ [(i, EvDeviceFree p)] |}).

Definition modify_rt (f : Runtime -> Runtime) : M unit :=
  fun st => (Some tt, {| rt := f (rt st); world := world st; trace := trace st |}).

(** [populate_kernel_addrs]: whether some kernel is registered; it only
    prints a warning when none is. *)
Definition populate_kernel_addrs (r : Runtime) : bool :=
  existsb (fun a => negb (a =? 0)) (take (Z.to_nat RUNTIME_MAX_FUNC_ID) (kernel_addrs r)).

Section Marshal.

Variable func_args : list Z.
Variable arg_types : option (list Z).
Variable arg_sizes : option (list Z).

Definition arg_type (i : Z) : Z :=
  match arg_types with Some l => at_index l i | None => ARG_SCALAR end.

Definition arg_size (i : Z) : Z :=
  match arg_sizes with Some l => at_index l i | None => 0 end.

Definition copies_in (atype : Z) : bool :=
  (atype =? ARG_INPUT_PTR) || (atype =? ARG_INOUT_PTR).

Definition copies_back (atype : Z) : bool :=
  (atype =? ARG_OUTPUT_PTR) || (atype =? ARG_INOUT_PTR).

(** The body of the marshalling loop, for argument [i]. *)
Definition marshal_arg (i : Z) : M unit :=
  let atype := arg_type i in
  let asize := arg_size i in
  if atype =? ARG_SCALAR then
    emit i (EvWriteOrchArg (at_index func_args i))
  else
    let host_ptr := at_index func_args i in
    let nbytes := asize in
    dev_ptr ← call_device_malloc i nbytes;
    if dev_ptr =? 0 then fail
    else
      emit i (EvRecordDeviceAlloc dev_ptr);;
      (if copies_in atype then
         rc ← call_copy_to_device i dev_ptr host_ptr nbytes;
         if negb (rc =? 0) then fail else ret tt
       else ret tt);;
      (if copies_back atype then
         emit i (EvRecordTensorPair host_ptr dev_ptr nbytes)
       else ret tt);;
      emit i (EvWriteOrchArg dev_ptr).

(** [for (int i = ...; i < func_args_count; i++)], with [n] iterations
    left. *)
Fixpoint marshal_loop (n : nat) (i : Z) : M unit :=
  match n with
  | O => ret tt
  | S n' => marshal_arg i ;; marshal_loop n' (i + 1)
  end.

(** *** What the loop leaves in the trace *)

(** The events of a pointer argument that is marshalled to the end. *)
Definition pointer_events (atype host asize dev : Z) : list Event :=
  [EvDeviceMalloc asize dev; EvRecordDeviceAlloc dev]
  ++ (if copies_in atype then [EvCopyToDevice dev host asize 0] else [])
  ++ (if copies_back atype then [EvRecordTensorPair host dev asize] else [])
  ++ [EvWriteOrchArg dev].

(** The events of one argument, and the value written to [orch_args] when the
    argument is marshalled to the end ([None]: the function returns -1). *)
Inductive arg_events (atype host asize : Z) : option Z -> list Event -> Prop :=
| ae_scalar :
    atype = ARG_SCALAR ->
    arg_events atype host asize (Some host) [EvWriteOrchArg host]
| ae_malloc_failed :
    atype <> ARG_SCALAR ->
    arg_events atype host asize None [EvDeviceMalloc asize 0]
| ae_copy_failed dev rc :
    atype <> ARG_SCALAR -> dev <> 0 -> copies_in atype = true -> rc <> 0 ->
    arg_events atype host asize None
      [EvDeviceMalloc asize dev; EvRecordDeviceAlloc dev; EvCopyToDevice dev host asize rc]
| ae_pointer dev :
    atype <> ARG_SCALAR -> dev <> 0 ->
    arg_events atype host asize (Some dev) (pointer_events atype host asize dev).

(** The events of [n] iterations from [i]; the flag tells whether the loop ran
    to its end. *)
Inductive loop_trace : nat -> Z -> bool -> Trace -> Prop :=
| lt_done i : loop_trace O i true []
| lt_failed n i evs :
    arg_events (arg_type i) (at_index func_args i) (arg_size i) None evs ->
    loop_trace (S n) i false (tag i evs)
| lt_step n i v evs ok new :
    arg_events (arg_type i) (at_index func_args i) (arg_size i) (Some v) evs ->
    loop_trace n (i + 1) ok new ->
    loop_trace (S n) i ok (tag i evs ++ new).

Definition result_of (ok : bool) : option unit := if ok then Some tt else None.

Lemma fold_apply_app (r : Runtime) (a b : Trace) :
  fold_left apply_event (a ++ b) r = fold_left apply_event b (fold_left apply_event a r).
Proof. apply fold_left_app. Qed.

Lemma marshal_arg_spec (i : Z) (st : State) :
  exists res evs w',
    arg_events (arg_type i) (at_index func_args i) (arg_size i) res evs /\
    marshal_arg i st =
      (match res with Some _ => Some tt | None => None end,
       {| rt := fold_left apply_event (tag i evs) (rt st); world := w';
          trace := trace st ++ tag i evs |}).
Proof.
  unfold marshal_arg.
  destruct (arg_type i =? ARG_SCALAR) eqn:Ety.
  { apply Z.eqb_eq in Ety. eexists (Some _), _, _. split; [now apply ae_scalar|].
    reflexivity. }
  apply Z.eqb_neq in Ety.
  unfold mbind, M_bind, bind, call_device_malloc.
  destruct (device_malloc host_api (world st) (arg_size i)) as [dev w1] eqn:Em.
  destruct (dev =? 0) eqn:Ed.
  { apply Z.eqb_eq in Ed. subst dev. eexists None, _, _.
    split; [now apply ae_malloc_failed|]. reflexivity. }
  apply Z.eqb_neq in Ed.
  cbn [emit fail ret rt world trace].
  destruct (copies_in (arg_type i)) eqn:Ein.
  - unfold call_copy_to_device. cbn [rt world trace].
    destruct (copy_to_device host_api w1 dev (at_index func_args i) (arg_size i))
      as [rc w2] eqn:Ec.
    destruct (rc =? 0) eqn:Erc; cbn [negb fail ret rt world trace].
    + apply Z.eqb_eq in Erc. subst rc.
      eexists (Some dev), _, _. split; [now apply ae_pointer|].
      unfold pointer_events. rewrite Ein.
      destruct (copies_back (arg_type i)); cbv [emit ret rt world trace];
        rewrite <- ?app_assoc; reflexivity.
    + apply Z.eqb_neq in Erc.
      eexists None, _, _. split; [now apply (ae_copy_failed _ _ _ dev rc)|].
      rewrite <- ?app_assoc. reflexivity.
  - eexists (Some dev), _, _. split; [now apply ae_pointer|].
    unfold pointer_events. rewrite Ein.
    destruct (copies_back (arg_type i)); cbv [emit ret rt world trace];
      rewrite <- ?app_assoc; reflexivity.
Qed.

Lemma marshal_loop_spec (n : nat) : forall (i : Z) (st : State),
  exists ok new w',
    loop_trace n i ok new /\
    marshal_loop n i st =
      (result_of ok,
       {| rt := fold_left apply_event new (rt st); world := w'; trace := trace st ++ new |}).
Proof.
  induction n as [|n IH]; intros i st.
  - exists true, [], (world st). split; [constructor|].
    simpl. rewrite app_nil_r. now destruct st.
  - cbn [marshal_loop]. unfold mbind, M_bind, bind.
    destruct (marshal_arg_spec i st) as (res & evs & w1 & Hev & ->).
    destruct res as [v|].
    + destruct (IH (i + 1) {| rt := fold_left apply_event (tag i evs) (rt st); world := w1;
                             trace := trace st ++ tag i evs |})
        as (ok & new & w2 & Hl & ->).
      exists ok, (tag i evs ++ new), w2. split; [now apply (lt_step _ _ v)|].
      cbn [rt world trace]. now rewrite fold_apply_app, app_assoc.
    + exists false, (tag i evs), w1. split; [now apply lt_failed|]. reflexivity.
Qed.

(** The records that a trace appends to the Runtime. *)
Definition allocs_of (tr : Trace) : list DeviceAlloc :=
  flat_map (fun e => match snd e with
                     | EvRecordDeviceAlloc p => [{| dev_ptr := p |}]
                     | _ => []
                     end) tr.

Definition pairs_of (tr : Trace) : list TensorPair :=
  flat_map (fun e => match snd e with
                     | EvRecordTensorPair h d n =>
                         [{| host_ptr := h; pair_dev_ptr := d; size := n |}]
                     | _ => []
                     end) tr.

(** A failed allocation or a failed copy to the device. *)
Definition failure_event (e : Event) : Prop :=
  match e with
  | EvDeviceMalloc _ p => p = 0
  | EvCopyToDevice _ _ _ rc => rc <> 0
  | _ => False
  end.

Lemma fold_device_allocs (tr : Trace) : forall r,
  device_allocs (fold_left apply_event tr r) = device_allocs r ++ allocs_of tr.
Proof.
  induction tr as [|[i e] tr IH]; intros r; simpl; [now rewrite app_nil_r|].
  rewrite IH. destruct e; simpl; try reflexivity. now rewrite <- app_assoc.
Qed.

Lemma fold_tensor_pairs (tr : Trace) : forall r,
  tensor_pairs (fold_left apply_event tr r) = tensor_pairs r ++ pairs_of tr.
Proof.
  induction tr as [|[i e] tr IH]; intros r; simpl; [now rewrite app_nil_r|].
  rewrite IH. destruct e; simpl; try reflexivity. now rewrite <- app_assoc.
Qed.

Lemma fold_orch_argc (tr : Trace) : forall r,
  orch_argc (fold_left apply_event tr r) = orch_argc r.
Proof.
  induction tr as [|[i e] tr IH]; intros r; simpl; [reflexivity|].
  rewrite IH. now destruct e.
Qed.

Lemma fold_orch_args_length (tr : Trace) : forall r,
  length (orch_args (fold_left apply_event tr r)) = length (orch_args r).
Proof.
  induction tr as [|[i e] tr IH]; intros r; simpl; [reflexivity|].
  rewrite IH. destruct e; simpl; try reflexivity. apply length_insert.
Qed.

Lemma at_index_insert_eq (l : list Z) (j v : Z) :
  (Z.to_nat j < length l)%nat -> at_index (<[Z.to_nat j := v]> l) j = v.
Proof.
  intros H. unfold at_index. rewrite nth_lookup, list_lookup_insert_eq by exact H.
  reflexivity.
Qed.

Lemma at_index_insert_ne (l : list Z) (i j v : Z) :
  0 <= i -> 0 <= j -> i <> j -> at_index (<[Z.to_nat i := v]> l) j = at_index l j.
Proof.
  intros Hi Hj Hne. unfold at_index.
  rewrite !nth_lookup, list_lookup_insert_ne by lia. reflexivity.
Qed.

(** Events of other iterations leave [orch_args[j]] alone. *)
Lemma fold_orch_args_other (tr : Trace) (j : Z) : forall r,
  0 <= j -> (forall e, In e tr -> 0 <= fst e /\ fst e <> j) ->
  at_index (orch_args (fold_left apply_event tr r)) j = at_index (orch_args r) j.
Proof.
  induction tr as [|[i e] tr IH]; intros r Hj Hall; simpl; [reflexivity|].
  rewrite IH by (try exact Hj; intros e' He'; apply Hall; now right).
  destruct (Hall (i, e) (or_introl eq_refl)) as [Hi Hne]. simpl in Hi, Hne.
  destruct e; simpl; try reflexivity. now apply at_index_insert_ne.
Qed.

Lemma arg_events_orch_args atype host asize v evs (j : Z) (r : Runtime) :
  arg_events atype host asize (Some v) evs ->
  (Z.to_nat j < length (orch_args r))%nat ->
  at_index (orch_args (fold_left apply_event (tag j evs) r)) j = v.
Proof.
  intros H Hlen. inversion H; subst.
  - simpl. now apply at_index_insert_eq.
  - unfold pointer_events.
    destruct (copies_in atype), (copies_back atype); simpl; now apply at_index_insert_eq.
Qed.

Lemma In_tag (i : Z) (evs : list Event) (e : Z * Event) :
  In e (tag i evs) <-> fst e = i /\ In (snd e) evs.
Proof.
  unfold tag. rewrite in_map_iff. destruct e as [k e]. simpl. split.
  - intros (x & Hx & Hin). injection Hx as <- <-. now split.
  - intros [<- Hin]. exists e. now split.
Qed.

Lemma loop_trace_tags n i ok new :
  loop_trace n i ok new -> forall e, In e new -> i <= fst e < i + Z.of_nat n.
Proof.
  induction 1 as [i | n i evs Hev | n i v evs ok new Hev Hl IH]; intros e Hin.
  - destruct Hin.
  - apply In_tag in Hin as [-> _]. lia.
  - apply in_app_or in Hin as [Hin | Hin].
    + apply In_tag in Hin as [-> _]. lia.
    + specialize (IH e Hin). lia.
Qed.

Lemma events_of_tag_eq (i : Z) (evs : list Event) : events_of i (tag i evs) = tag i evs.
Proof.
  unfold events_of, tag. induction evs as [|e evs IH]; simpl; [reflexivity|].
  now rewrite Z.eqb_refl, IH.
Qed.

Lemma events_of_none (j : Z) (tr : Trace) :
  (forall e, In e tr -> fst e <> j) -> events_of j tr = [].
Proof.
  unfold events_of. induction tr as [|e tr IH]; intros H; simpl; [reflexivity|].
  destruct (fst e =? j) eqn:E.
  - apply Z.eqb_eq in E. now destruct (H e (or_introl eq_refl)).
  - apply IH. intros e' He'. apply H. now right.
Qed.

Lemma events_of_app (j : Z) (a b : Trace) :
  events_of j (a ++ b) = events_of j a ++ events_of j b.
Proof. apply List.filter_app. Qed.

(** When the loop runs to its end, the events of argument [j] are those of
    [arg_events], and [orch_args[j]] holds the value they wrote. *)
Lemma loop_trace_ok n i ok new :
  loop_trace n i ok new -> ok = true -> 0 <= i ->
  forall (r : Runtime) (j : Z),
    i <= j < i + Z.of_nat n -> (Z.to_nat j < length (orch_args r))%nat ->
    exists v evs,
      events_of j new = tag j evs /\
      arg_events (arg_type j) (at_index func_args j) (arg_size j) (Some v) evs /\
      at_index (orch_args (fold_left apply_event new r)) j = v.
Proof.
  induction 1 as [i | n i evs Hev | n i v evs ok new Hev Hl IH]; intros Hok Hi r j Hj Hlen.
  - simpl in Hj. lia.
  - discriminate.
  - rewrite events_of_app, fold_apply_app.
    destruct (Z.eq_dec j i) as [->|Hne].
    + exists v, evs. rewrite events_of_tag_eq.
      rewrite (events_of_none i new), app_nil_r.
      2:{ intros e He. apply (loop_trace_tags _ _ _ _ Hl) in He. lia. }
      repeat split; [exact Hev|].
      rewrite fold_orch_args_other.
      * now apply (arg_events_orch_args _ _ _ _ _ _ _ Hev).
      * lia.
      * intros e He. apply (loop_trace_tags _ _ _ _ Hl) in He. lia.
    + rewrite (events_of_none j (tag i evs)).
      2:{ intros e He. apply In_tag in He as [-> _]. congruence. }
      destruct (IH Hok ltac:(lia) (fold_left apply_event (tag i evs) r) j ltac:(lia))
        as (v' & evs' & He & Ha & Hv).
      { now rewrite fold_orch_args_length. }
      exists v', evs'. now repeat split.
Qed.

Lemma arg_events_no_free atype host asize res evs (i : Z) :
  arg_events atype host asize res evs -> frees_of (tag i evs) = [].
Proof.
  intros H. inversion H; subst; try reflexivity.
  unfold pointer_events. now destruct (copies_in atype), (copies_back atype).
Qed.

Lemma frees_of_app (a b : Trace) : frees_of (a ++ b) = frees_of a ++ frees_of b.
Proof.
  induction a as [|[i e] a IH]; simpl; [reflexivity|].
  destruct e; simpl; rewrite ?IH; reflexivity.
Qed.

(** The marshalling frees nothing. *)
Lemma loop_trace_no_free n i ok new : loop_trace n i ok new -> frees_of new = [].
Proof.
  induction 1 as [i | n i evs Hev | n i v evs ok new Hev Hl IH].
  - reflexivity.
  - exact (arg_events_no_free _ _ _ _ _ _ Hev).
  - now rewrite frees_of_app, (arg_events_no_free _ _ _ _ _ _ Hev), IH.
Qed.

Lemma allocs_of_app (a b : Trace) : allocs_of (a ++ b) = allocs_of a ++ allocs_of b.
Proof. apply flat_map_app. Qed.

Lemma pairs_of_app (a b : Trace) : pairs_of (a ++ b) = pairs_of a ++ pairs_of b.
Proof. apply flat_map_app. Qed.

Lemma arg_events_recorded atype host asize res evs :
  arg_events atype host asize res evs ->
  forall sz p, In (EvDeviceMalloc sz p) evs -> p <> 0 -> In (EvRecordDeviceAlloc p) evs.
Proof.
  intros H sz p Hin Hp. inversion H; subst; simpl in Hin.
  - destruct Hin as [Hin|[]]; discriminate.
  - destruct Hin as [Hin|[]]. injection Hin as _ <-. congruence.
  - destruct Hin as [Hin|[Hin|[Hin|[]]]]; try discriminate.
    injection Hin as _ <-. simpl. right. now left.
  - unfold pointer_events in *. simpl in *.
    destruct Hin as [Hin|[Hin|Hin]]; try discriminate.
    + injection Hin as _ <-. right. now left.
    + exfalso. destruct (copies_in atype), (copies_back atype); simpl in Hin;
        repeat (destruct Hin as [Hin|Hin]; try discriminate); exact Hin.
Qed.

Lemma In_allocs_of (tr : Trace) (p : Z) :
  In {| dev_ptr := p |} (allocs_of tr) <-> exists i, In (i, EvRecordDeviceAlloc p) tr.
Proof.
  unfold allocs_of. rewrite in_flat_map. split.
  - intros ([i e] & Hin & He). destruct e; simpl in He; try contradiction.
    destruct He as [He|[]]. injection He as ->. now exists i.
  - intros [i Hin]. exists (i, EvRecordDeviceAlloc p). split; [exact Hin|]. now left.
Qed.

Lemma In_pairs_of (tr : Trace) (h d n : Z) :
  In {| host_ptr := h; pair_dev_ptr := d; size := n |} (pairs_of tr) <->
  exists i, In (i, EvRecordTensorPair h d n) tr.
Proof.
  unfold pairs_of. rewrite in_flat_map. split.
  - intros ([i e] & Hin & He). destruct e; simpl in He; try contradiction.
    destruct He as [He|[]]. injection He as -> -> ->. now exists i.
  - intros [i Hin]. exists (i, EvRecordTensorPair h d n). split; [exact Hin|]. now left.
Qed.

(** Every allocation that succeeded is recorded, also when the loop fails. *)
Lemma loop_trace_recorded n i ok new :
  loop_trace n i ok new ->
  forall j sz p, In (j, EvDeviceMalloc sz p) new -> p <> 0 ->
                 In (j, EvRecordDeviceAlloc p) new.
Proof.
  induction 1 as [i | n i evs Hev | n i v evs ok new Hev Hl IH]; intros j sz p Hin Hp.
  - destruct Hin.
  - apply In_tag in Hin as [Hj Hin]. simpl in Hj, Hin. subst j.
    apply In_tag. split; [reflexivity|]. exact (arg_events_recorded _ _ _ _ _ Hev _ _ Hin Hp).
  - apply in_or_app. apply in_app_or in Hin as [Hin|Hin].
    + left. apply In_tag in Hin as [Hj Hin]. simpl in Hj, Hin. subst j.
      apply In_tag. split; [reflexivity|].
      exact (arg_events_recorded _ _ _ _ _ Hev _ _ Hin Hp).
    + right. exact (IH _ _ _ Hin Hp).
Qed.

Lemma arg_events_success atype host asize v evs :
  arg_events atype host asize (Some v) evs ->
  forall e, In e evs -> ~ failure_event e.
Proof.
  intros H e Hin. inversion H; subst.
  - destruct Hin as [<-|[]]. simpl. tauto.
  - unfold pointer_events in Hin. simpl in Hin.
    destruct Hin as [<-|[<-|Hin]]; simpl; try tauto.
    destruct (copies_in atype), (copies_back atype); simpl in Hin;
      repeat (destruct Hin as [<-|Hin]; simpl; try tauto); try lia; destruct Hin.
Qed.

(** A loop that ran to its end met no failed allocation and no failed copy. *)
Lemma loop_trace_success n i ok new :
  loop_trace n i ok new -> ok = true ->
  forall e, In e new -> ~ failure_event (snd e).
Proof.
  induction 1 as [i | n i evs Hev | n i v evs ok new Hev Hl IH]; intros Hok e Hin.
  - destruct Hin.
  - discriminate.
  - apply in_app_or in Hin as [Hin|Hin].
    + apply In_tag in Hin as [_ Hin]. exact (arg_events_success _ _ _ _ _ Hev _ Hin).
    + exact (IH Hok _ Hin).
Qed.

End Marshal.

(** [strncpy] into the zeroed name buffer, with room for the terminator. *)
Definition copy_func_name (name : string) : string :=
  substring 0 (ORCH_FUNC_NAME_SIZE - 1) name.

(** [env] is the value of [PTO_AICPU_BUILD_GRAPH_BUILD_MODE]. *)
Definition init_runtime_impl
    (runtime : option Runtime)
    (orch_so_binary : option (list Z)) (orch_so_size : Z)
    (orch_func_name : option string)
    (func_args : list Z) (func_args_count : Z)
    (arg_types arg_sizes : option (list Z))
    (env : option string) (w : World)
  : Z * option State :=
  match runtime with
  | None => (-1, None)
  | Some r =>
      let st0 := {| rt := r; world := w; trace := [] |} in
      match orch_so_binary, orch_func_name with
      | Some bin, Some name =>
          if orch_so_size =? 0 then (-1, Some st0)
          else
            let st1 := {| rt := clear_device_allocs (clear_tensor_pairs r);
                          world := w; trace := [] |} in
            if RUNTIME_MAX_ORCH_ARGS <? func_args_count then (-1, Some st1)
            else
              match marshal_loop func_args arg_types arg_sizes
                                 (Z.to_nat func_args_count) 0 st1 with
              | (None, st2) => (-1, Some st2)
              | (Some _, st2) =>
                  let r2 := set_orch_argc func_args_count (rt st2) in
                  match try_set_aicpu_orch_so RUNTIME_MAX_AICPU_ORCH_SO_SIZE
                                              bin orch_so_size r2 with
                  | None =>
                      (-1, Some {| rt := r2; world := world st2; trace := trace st2 |})
                  | Some r3 =>
                      let r4 := set_aicpu_orch_func_name (copy_func_name name) r3 in
                      let r5 := set_build_mode
                                  (BuildMode.parse_build_mode_env env (build_mode r4)) r4 in
                      let _ := populate_kernel_addrs r5 in
                      (0, Some {| rt := r5; world := world st2; trace := trace st2 |})
                  end
              end
      | _, _ => (-1, Some st0)
      end
  end.

(** [is_recorded_alloc] of [validate_runtime_impl]. *)
Definition is_recorded_alloc (allocs : list DeviceAlloc) (p : Z) : bool :=
  if p =? 0 then false
  else existsb (fun a => dev_ptr a =? p) allocs.

(** Copy every recorded tensor back; [rc] keeps the last failure. *)
Fixpoint copy_back_loop (pairs : list TensorPair) (i : Z) (rc : Z) : M Z :=
  match pairs with
  | [] => ret rc
  | tp :: pairs' =>
      copy_rc ← call_copy_from_device i (host_ptr tp) (pair_dev_ptr tp) (size tp);
      copy_back_loop pairs' (i + 1) (if negb (copy_rc =? 0) then copy_rc else rc)
  end.

Fixpoint free_allocs_loop (allocs : list DeviceAlloc) (i : Z) (freed : Z) : M Z :=
  match allocs with
  | [] => ret freed
  | a :: allocs' =>
      let p := dev_ptr a in
      if p =? 0 then free_allocs_loop allocs' (i + 1) freed
      else call_device_free i p ;; free_allocs_loop allocs' (i + 1) (freed + 1)
  end.

Fixpoint free_pairs_loop (recorded : list DeviceAlloc) (pairs : list TensorPair)
    (i : Z) (freed : Z) : M Z :=
  match pairs with
  | [] => ret freed
  | tp :: pairs' =>
      let p := pair_dev_ptr tp in
      if p =? 0 then free_pairs_loop recorded pairs' (i + 1) freed
      else if is_recorded_alloc recorded p then free_pairs_loop recorded pairs' (i + 1) freed
      else call_device_free i p ;; free_pairs_loop recorded pairs' (i + 1) (freed + 1)
  end.

Definition validate_body (r : Runtime) : M Z :=
  let pairs := tensor_pairs r in
  let allocs := device_allocs r in
  rc ← copy_back_loop pairs 0 0;
  freed_allocs ← free_allocs_loop allocs 0 0;
  freed_pairs ← free_pairs_loop allocs pairs 0 0;
  modify_rt clear_tensor_pairs;;
  modify_rt clear_device_allocs;;
  ret rc.

Definition validate_runtime_impl (runtime : option Runtime) (w : World)
  : Z * option State :=
  match runtime with
  | None => (-1, None)
  | Some r =>
      match validate_body r {| rt := r; world := w; trace := [] |} with
      | (Some rc, st) => (rc, Some st)
      | (None, st) => (-1, Some st)
      end
  end.

(** The trace and the Runtime that a call leaves behind. *)
Definition trace_of (res : Z * option State) : Trace :=
  match snd res with Some st => trace st | None => [] end.

Definition runtime_of (res : Z * option State) : option Runtime :=
  match snd res with Some st => Some (rt st) | None => None end.

Definition world_of (w : World) (res : Z * option State) : World :=
  match snd res with Some st => world st | None => w end.

(** The pointers that the two cleanup loops of [validate_runtime_impl] free. *)
Definition freed_allocs (allocs : list DeviceAlloc) : list Z :=
  List.filter (fun p => negb (p =? 0)) (map dev_ptr allocs).

Definition freed_pairs (allocs : list DeviceAlloc) (pairs : list TensorPair) : list Z :=
  List.filter (fun p => negb (p =? 0) && negb (is_recorded_alloc allocs p))
              (map pair_dev_ptr pairs).

(** *** [validate_runtime_impl] *)

Lemma copy_back_loop_spec (pairs : list TensorPair) : forall (i rc : Z) (st : State),
  exists rc' new w',
    copy_back_loop pairs i rc st =
      (Some rc', {| rt := rt st; world := w'; trace := trace st ++ new |}) /\
    frees_of new = [].
Proof.
  induction pairs as [|tp pairs IH]; intros i rc st.
  - exists rc, [], (world st). simpl. rewrite app_nil_r. now destruct st.
  - cbn [copy_back_loop]. unfold mbind, M_bind, bind, call_copy_from_device.
    destruct (copy_from_device host_api (world st) (host_ptr tp) (pair_dev_ptr tp) (size tp))
      as [copy_rc w1].
    match goal with |- context [copy_back_loop pairs ?j ?c ?s] =>
      destruct (IH j c s) as (rc' & new & w2 & -> & Hf) end.
    eexists rc', (_ :: new), w2. cbn [rt world trace]. split.
    + rewrite <- app_assoc. reflexivity.
    + simpl. exact Hf.
Qed.

Lemma free_allocs_loop_spec (allocs : list DeviceAlloc) : forall (i freed : Z) (st : State),
  exists n new w',
    free_allocs_loop allocs i freed st =
      (Some n, {| rt := rt st; world := w'; trace := trace st ++ new |}) /\
    frees_of new = freed_allocs allocs.
Proof.
  induction allocs as [|a allocs IH]; intros i freed st.
  - exists freed, [], (world st). simpl. rewrite app_nil_r. now destruct st.
  - cbn [free_allocs_loop]. unfold freed_allocs. cbn [map List.filter].
    destruct (dev_ptr a =? 0) eqn:E; cbn [negb].
    + apply IH.
    + unfold mbind, M_bind, bind, call_device_free.
      match goal with |- context [free_allocs_loop allocs ?j ?c ?s] =>
        destruct (IH j c s) as (n & new & w2 & -> & Hf) end.
      eexists n, (_ :: new), w2. cbn [rt world trace]. split.
      * rewrite <- app_assoc. reflexivity.
      * simpl. now rewrite Hf.
Qed.

Lemma free_pairs_loop_spec (recorded : list DeviceAlloc) (pairs : list TensorPair) :
  forall (i freed : Z) (st : State),
  exists n new w',
    free_pairs_loop recorded pairs i freed st =
      (Some n, {| rt := rt st; world := w'; trace := trace st ++ new |}) /\
    frees_of new = freed_pairs recorded pairs.
Proof.
  induction pairs as [|tp pairs IH]; intros i freed st.
  - exists freed, [], (world st). simpl. rewrite app_nil_r. now destruct st.
  - cbn [free_pairs_loop]. unfold freed_pairs. cbn [map List.filter].
    destruct (pair_dev_ptr tp =? 0) eqn:E; cbn [negb andb]; [apply IH|].
    destruct (is_recorded_alloc recorded (pair_dev_ptr tp)) eqn:Er; cbn [negb]; [apply IH|].
    unfold mbind, M_bind, bind, call_device_free.
    match goal with |- context [free_pairs_loop recorded pairs ?j ?c ?s] =>
      destruct (IH j c s) as (n & new & w2 & -> & Hf) end.
    eexists n, (_ :: new), w2. cbn [rt world trace]. split.
    + rewrite <- app_assoc. reflexivity.
    + simpl. now rewrite Hf.
Qed.

Lemma validate_runtime_impl_spec (r : Runtime) (w : World) :
  exists rc st,
    validate_runtime_impl (Some r) w = (rc, Some st) /\
    frees_of (trace st) =
      freed_allocs (device_allocs r) ++ freed_pairs (device_allocs r) (tensor_pairs r) /\
    tensor_pairs (rt st) = [] /\ device_allocs (rt st) = [].
Proof.
  unfold validate_runtime_impl, validate_body, mbind, M_bind, bind.
  destruct (copy_back_loop_spec (tensor_pairs r) 0 0 {| rt := r; world := w; trace := [] |})
    as (rc & n1 & w1 & -> & H1).
  match goal with |- context [free_allocs_loop ?a ?j ?c ?s] =>
    destruct (free_allocs_loop_spec a j c s) as (k2 & n2 & w2 & -> & H2) end.
  match goal with |- context [free_pairs_loop ?a ?p ?j ?c ?s] =>
    destruct (free_pairs_loop_spec a p j c s) as (k3 & n3 & w3 & -> & H3) end.
  cbn [modify_rt ret rt world trace]. eexists _, _. split; [reflexivity|].
  cbn [rt world trace app]. rewrite !frees_of_app, H1, H2, H3. now repeat split.
Qed.


Lemma In_freed_allocs (allocs : list DeviceAlloc) (p : Z) :
  In p (freed_allocs allocs) <-> p <> 0 /\ In p (map dev_ptr allocs).
Proof.
  unfold freed_allocs. rewrite filter_In, negb_true_iff, Z.eqb_neq. tauto.
Qed.






(** *** [init_runtime_impl] *)

Definition cleared (r : Runtime) : Runtime := clear_device_allocs (clear_tensor_pairs r).

(** Either the function returns -1 before the loop, and nothing has happened;
    or the loop has run, and the Runtime is the cleared one after the events
    of the trace. *)
Lemma init_runtime_impl_cases
    (runtime : option Runtime) (bin : option (list Z)) (n : Z) (name : option string)
    (fa : list Z) (count : Z) (ty sz : option (list Z)) (env : option string) (w : World) :
  let res := init_runtime_impl runtime bin n name fa count ty sz env w in
  (fst res = -1 /\ trace_of res = [] /\ world_of w res = w /\
   (forall r, runtime = Some r ->
      exists r', runtime_of res = Some r' /\ orch_args r' = orch_args r /\
                 orch_argc r' = orch_argc r)) \/
  (exists r ok new,
     runtime = Some r /\ count <= RUNTIME_MAX_ORCH_ARGS /\
     loop_trace fa ty sz (Z.to_nat count) 0 ok new /\
     trace_of res = new /\
     (ok = false ->
      fst res = -1 /\ runtime_of res = Some (fold_left apply_event new (cleared r))) /\
     (ok = true ->
      exists r', runtime_of res = Some r' /\
        orch_args r' = orch_args (fold_left apply_event new (cleared r)) /\
        device_allocs r' = device_allocs (fold_left apply_event new (cleared r)) /\
        tensor_pairs r' = tensor_pairs (fold_left apply_event new (cleared r)) /\
        (fst res = 0 \/ fst res = -1))).
Proof.
  cbv zeta. unfold init_runtime_impl, trace_of, runtime_of, world_of.
  destruct runtime as [r|]; [|left; repeat split; intros; discriminate].
  destruct bin as [bin|];
    [|left; repeat split; intros r0 [= <-]; exists r; now repeat split].
  destruct name as [name|];
    [|left; repeat split; intros r0 [= <-]; exists r; now repeat split].
  destruct (n =? 0);
    [left; repeat split; intros r0 [= <-]; exists r; now repeat split|].
  destruct (RUNTIME_MAX_ORCH_ARGS <? count) eqn:Ecap.
  { left. repeat split. intros r0 [= <-]. eexists. now repeat split. }
  apply Z.ltb_ge in Ecap. right.
  destruct (marshal_loop_spec fa ty sz (Z.to_nat count) 0
              {| rt := cleared r; world := w; trace := [] |})
    as (ok & new & w' & Hl & E).
  fold (cleared r). rewrite E. cbn [rt world trace app].
  exists r, ok, new. split; [reflexivity|]. split; [exact Ecap|]. split; [exact Hl|].
  destruct ok; cbn [result_of].
  - unfold try_set_aicpu_orch_so.
    destruct (n <=? RUNTIME_MAX_AICPU_ORCH_SO_SIZE); cbn [fst snd rt trace];
      (split; [reflexivity|]); (split; [discriminate|]); intros _;
      eexists; (split; [reflexivity|]); repeat split; auto.
  - cbn [fst snd rt trace]. split; [reflexivity|]. split; [now split | discriminate].
Qed.

(** C5. After a successful [init_runtime_impl], for every argument [i]: a
    scalar is written to [orch_args[i]] as it is, and nothing else happens
    for it; for any other type, [arg_sizes[i]] bytes are allocated, the
    allocation is recorded, [orch_args[i]] is the device address, the copy to
    the device is made exactly for the input and in/out pointers, and the
    tensor pair is recorded exactly for the output and in/out pointers. *)
Theorem init_runtime_impl_marshals
    (r : Runtime) (bin : option (list Z)) (n : Z) (name : option string)
    (fa : list Z) (count : Z) (ty sz : option (list Z)) (env : option string) (w : World)
    (i : Z) :
  let res := init_runtime_impl (Some r) bin n name fa count ty sz env w in
  let atype := arg_type ty i in
  let host := at_index fa i in
  let asize := arg_size sz i in
  fst res = 0 ->
  length (orch_args r) = Z.to_nat RUNTIME_MAX_ORCH_ARGS ->
  0 <= i < count ->
  exists r', runtime_of res = Some r' /\
    (atype = ARG_SCALAR ->
     events_of i (trace_of res) = tag i [EvWriteOrchArg host] /\
     at_index (orch_args r') i = host) /\
    (atype <> ARG_SCALAR ->
     exists dev, dev <> 0 /\
       events_of i (trace_of res) = tag i (pointer_events atype host asize dev) /\
       at_index (orch_args r') i = dev /\
       In {| dev_ptr := dev |} (device_allocs r') /\
       (copies_back atype = true ->
        In {| host_ptr := host; pair_dev_ptr := dev; size := asize |} (tensor_pairs r'))).
Proof.
  cbv zeta. intros Hrc Hlen Hi.
  destruct (init_runtime_impl_cases (Some r) bin n name fa count ty sz env w)
    as [(Hfail & _) | (r0 & ok & new & [= <-] & Hcap & Hl & Htr & Hko & Hok)]; [lia|].
  destruct ok; [|destruct (Hko eq_refl); lia].
  destruct (Hok eq_refl) as (r' & Hr' & Hargs & Hallocs & Hpairs & _).
  exists r'. split; [exact Hr'|]. rewrite Htr, Hargs, Hallocs, Hpairs.
  destruct (loop_trace_ok fa ty sz _ _ _ _ Hl eq_refl ltac:(lia) (cleared r) i ltac:(lia))
    as (v & evs & Hev & Ha & Hv).
  { change (orch_args (cleared r)) with (orch_args r). lia. }
  assert (Hsub : forall e, In e evs -> In (i, e) new).
  { intros e He.
    apply (proj1 (filter_In (fun e => fst e =? i) (i, e) new)).
    fold (events_of i new). rewrite Hev. apply In_tag. now split. }
  rewrite Hev, Hv. clear Hev Hv. split.
  - intros Hs. inversion Ha; subst; [now split | contradiction].
  - intros Hs. inversion Ha; subst; [contradiction|].
    eexists. split; [eassumption|]. split; [reflexivity|]. split; [reflexivity|].
    split.
    + rewrite fold_device_allocs. apply in_or_app. right. apply In_allocs_of.
      exists i. apply Hsub. unfold pointer_events. simpl. right. now left.
    + intros Hb. rewrite fold_tensor_pairs. apply in_or_app. right. apply In_pairs_of.
      exists i. apply Hsub. unfold pointer_events. rewrite Hb. simpl.
      destruct (copies_in (arg_type ty i)); simpl; tauto.
Qed.

(** C7. With more than [RUNTIME_MAX_ORCH_ARGS] arguments, [init_runtime_impl]
    returns -1 and nothing has happened: no allocation, no copy, no record, no
    write to [orch_args]; the device and [orch_args] are as they were. *)
Theorem init_runtime_impl_capacity
    (runtime : option Runtime) (bin : option (list Z)) (n : Z) (name : option string)
    (fa : list Z) (count : Z) (ty sz : option (list Z)) (env : option string) (w : World) :
  let res := init_runtime_impl runtime bin n name fa count ty sz env w in
  RUNTIME_MAX_ORCH_ARGS < count ->
  fst res = -1 /\ trace_of res = [] /\ world_of w res = w /\
  (forall r, runtime = Some r ->
     exists r', runtime_of res = Some r' /\ orch_args r' = orch_args r /\
                orch_argc r' = orch_argc r).
Proof.
  cbv zeta. intros Hcap.
  destruct (init_runtime_impl_cases runtime bin n name fa count ty sz env w)
    as [H | (r0 & ok & new & _ & Hle & _)]; [exact H | lia].
Qed.

(** C9. When an allocation or a copy to the device fails for some argument,
    [init_runtime_impl] returns -1; [orch_argc] is as it was; nothing was
    freed; the Runtime holds exactly the records made so far, among them the
    record of every allocation that succeeded; and a later
    [validate_runtime_impl] frees each of those allocations. *)
Theorem init_runtime_impl_partial_failure
    (r : Runtime) (bin : option (list Z)) (n : Z) (name : option string)
    (fa : list Z) (count : Z) (ty sz : option (list Z)) (env : option string) (w : World)
    (i : Z) (e : Event) :
  let res := init_runtime_impl (Some r) bin n name fa count ty sz env w in
  In (i, e) (trace_of res) -> failure_event e ->
  fst res = -1 /\
  frees_of (trace_of res) = [] /\
  exists r', runtime_of res = Some r' /\
    orch_argc r' = orch_argc r /\
    device_allocs r' = allocs_of (trace_of res) /\
    tensor_pairs r' = pairs_of (trace_of res) /\
    (forall j k p, In (j, EvDeviceMalloc k p) (trace_of res) -> p <> 0 ->
       In {| dev_ptr := p |} (device_allocs r') /\
       forall w2, In p (frees_of (trace_of (validate_runtime_impl (Some r') w2)))).
Proof.
  cbv zeta. intros Hin Hfe.
  destruct (init_runtime_impl_cases (Some r) bin n name fa count ty sz env w)
    as [(_ & Hnil & _) | (r0 & ok & new & [= <-] & Hcap & Hl & Htr & Hko & Hok)].
  { rewrite Hnil in Hin. destruct Hin. }
  rewrite Htr in *.
  destruct ok.
  { exfalso. exact (loop_trace_success fa ty sz _ _ _ _ Hl eq_refl _ Hin Hfe). }
  destruct (Hko eq_refl) as [Hrc Hr']. split; [exact Hrc|].
  split; [exact (loop_trace_no_free fa ty sz _ _ _ _ Hl)|].
  eexists. split; [exact Hr'|].
  rewrite fold_orch_argc, fold_device_allocs, fold_tensor_pairs.
  split; [reflexivity|]. split; [reflexivity|]. split; [reflexivity|].
  intros j k p Hm Hp.
  assert (Hrec : In {| dev_ptr := p |} (allocs_of new)).
  { apply In_allocs_of. exists j.
    exact (loop_trace_recorded fa ty sz _ _ _ _ Hl _ _ _ Hm Hp). }
  split; [exact Hrec|]. intros w2.
  destruct (validate_runtime_impl_spec (fold_left apply_event new (cleared r)) w2)
    as (rc2 & st2 & E2 & Hf & _).
  unfold trace_of. rewrite E2. cbn [snd]. rewrite Hf. apply in_or_app. left. apply In_freed_allocs. split; [exact Hp|].
  rewrite fold_device_allocs. apply in_map_iff.
  exists {| dev_ptr := p |}. split; [reflexivity | exact Hrec].
Qed.

(** *** More on [init_runtime_impl] *)

(** The addresses that [device_malloc] handed out, in order (a null result is
    a failed allocation). *)
Fixpoint mallocs_of (tr : Trace) : list Z :=
  match tr with
  | [] => []
  | (_, EvDeviceMalloc _ p) :: tr' => if p =? 0 then mallocs_of tr' else p :: mallocs_of tr'
  | _ :: tr' => mallocs_of tr'
  end.

(** The indices [i], [i + 1], ... of [n] loop iterations. *)
Fixpoint arg_indices (n : nat) (i : Z) : list Z :=
  match n with
  | O => []
  | S n' => i :: arg_indices n' (i + 1)
  end.

Lemma mallocs_of_app (a b : Trace) : mallocs_of (a ++ b) = mallocs_of a ++ mallocs_of b.
Proof.
  induction a as [|[i e] a IH]; simpl; [reflexivity|].
  destruct e; simpl; rewrite ?IH; try reflexivity.
  now destruct (ptr =? 0).
Qed.

(** With valid orchestration parameters the function either stops at the
    capacity check, the collections cleared, or runs the loop. *)
Lemma init_runtime_impl_valid_cases
    (r : Runtime) (bin : list Z) (n : Z) (name : string)
    (fa : list Z) (count : Z) (ty sz : option (list Z)) (env : option string) (w : World) :
  n <> 0 ->
  let res := init_runtime_impl (Some r) (Some bin) n (Some name) fa count ty sz env w in
  (RUNTIME_MAX_ORCH_ARGS < count /\
   res = (-1, Some {| rt := cleared r; world := w; trace := [] |})) \/
  (count <= RUNTIME_MAX_ORCH_ARGS /\
   exists ok new w',
     loop_trace fa ty sz (Z.to_nat count) 0 ok new /\
     let r1 := fold_left apply_event new (cleared r) in
     let r2 := set_orch_argc count r1 in
     match ok with
     | false => res = (-1, Some {| rt := r1; world := w'; trace := new |})
     | true =>
         if n <=? RUNTIME_MAX_AICPU_ORCH_SO_SIZE
         then res =
                (0, Some {| rt := set_build_mode
                                    (BuildMode.parse_build_mode_env env (build_mode r2))
                                    (set_aicpu_orch_func_name (copy_func_name name)
                                       (set_aicpu_orch_so (take (Z.to_nat n) bin) r2));
                            world := w'; trace := new |})
         else res = (-1, Some {| rt := r2; world := w'; trace := new |})
     end).
Proof.
  intros Hn. cbv zeta. unfold init_runtime_impl.
  destruct (Z.eqb_spec n 0) as [|_]; [contradiction|].
  destruct (RUNTIME_MAX_ORCH_ARGS <? count) eqn:Ecap.
  { left. apply Z.ltb_lt in Ecap. now split. }
  apply Z.ltb_ge in Ecap. right. split; [exact Ecap|].
  destruct (marshal_loop_spec fa ty sz (Z.to_nat count) 0
              {| rt := cleared r; world := w; trace := [] |})
    as (ok & new & w' & Hl & E).
  fold (cleared r). rewrite E. cbn [rt world trace app].
  exists ok, new, w'. split; [exact Hl|].
  destruct ok; cbn [result_of]; [|reflexivity].
  unfold try_set_aicpu_orch_so.
  destruct (n <=? RUNTIME_MAX_AICPU_ORCH_SO_SIZE); reflexivity.
Qed.

(** A loop that stopped early met a failed allocation or a failed copy. *)
Lemma loop_trace_failed fa ty sz n i ok new :
  loop_trace fa ty sz n i ok new -> ok = false ->
  exists e, In e new /\ failure_event (snd e).
Proof.
  induction 1 as [i | n i evs Hev | n i v evs ok new Hev Hl IH]; intros Hok.
  - discriminate.
  - inversion Hev; subst.
    + exists (i, EvDeviceMalloc (arg_size sz i) 0). split; [now left | reflexivity].
    + eexists (i, EvCopyToDevice _ _ _ _). split; [right; right; now left | assumption].
  - destruct (IH Hok) as (e & Hin & Hf). exists e. split; [|exact Hf].
    apply in_or_app. now right.
Qed.

Lemma substring_0_length (m : nat) : forall s : string,
  String.length (substring 0 m s) = Nat.min m (String.length s).
Proof.
  induction m as [|m IH]; intros [|c s]; simpl; try reflexivity. now rewrite IH.
Qed.

Lemma substring_0_all (m : nat) : forall s : string,
  (String.length s <= m)%nat -> substring 0 m s = s.
Proof.
  induction m as [|m IH]; intros [|c s] H; simpl in *; try reflexivity; try lia.
  rewrite IH by lia. reflexivity.
Qed.

(** The events change nothing but [orch_args] and the two collections. *)
Lemma fold_other_fields (tr : Trace) : forall r,
  tasks (fold_left apply_event tr r) = tasks r /\
  kernel_addrs (fold_left apply_event tr r) = kernel_addrs r /\
  aicpu_orch_so (fold_left apply_event tr r) = aicpu_orch_so r /\
  aicpu_orch_func_name (fold_left apply_event tr r) = aicpu_orch_func_name r /\
  build_mode (fold_left apply_event tr r) = build_mode r.
Proof.
  induction tr as [|[i e] tr IH]; intros r; simpl; [now repeat split|].
  destruct (IH (apply_event r (i, e))) as (H1 & H2 & H3 & H4 & H5).
  rewrite H1, H2, H3, H4, H5. now destruct e.
Qed.

(** X1. [init_runtime_impl] frees nothing, whatever its outcome.  When the
    orchestration parameters are rejected the two bookkeeping collections are
    left as they were; in every other case the records that were there before
    the call are dropped, and the collections hold the records of this call
    only. *)
Theorem init_runtime_impl_previous_records
    (r : Runtime) (bin : option (list Z)) (n : Z) (name : option string)
    (fa : list Z) (count : Z) (ty sz : option (list Z)) (env : option string) (w : World) :
  let res := init_runtime_impl (Some r) bin n name fa count ty sz env w in
  frees_of (trace_of res) = [] /\
  exists r', runtime_of res = Some r' /\
    if match bin, name with Some _, Some _ => negb (n =? 0) | _, _ => false end
    then device_allocs r' = allocs_of (trace_of res) /\
         tensor_pairs r' = pairs_of (trace_of res)
    else fst res = -1 /\ r' = r /\ trace_of res = [].
Proof.
  cbv zeta.
  destruct bin as [bin|]; [|split; [reflexivity | exists r; now repeat split]].
  destruct name as [name|]; [|split; [reflexivity | exists r; now repeat split]].
  destruct (Z.eqb_spec n 0) as [->|Hn]; cbn [negb].
  { split; [reflexivity | exists r; now repeat split]. }
  destruct (init_runtime_impl_valid_cases r bin n name fa count ty sz env w Hn)
    as [[_ E] | (_ & ok & new & w' & Hl & E)].
  - rewrite E. split; [reflexivity|]. eexists. split; [reflexivity|]. now split.
  - cbv zeta in E. pose proof (loop_trace_no_free _ _ _ _ _ _ _ Hl) as Hfree.
    destruct ok; [destruct (n <=? RUNTIME_MAX_AICPU_ORCH_SO_SIZE)|];
      rewrite E; unfold trace_of, runtime_of; cbn [snd rt trace];
      (split; [exact Hfree|]); eexists; (split; [reflexivity|]);
      cbn [device_allocs tensor_pairs set_build_mode set_aicpu_orch_func_name
           set_aicpu_orch_so set_orch_argc];
      rewrite fold_device_allocs, fold_tensor_pairs; now split.
Qed.

(** X2. [init_runtime_impl] returns 0 or -1, and 0 exactly when the
    orchestration binary and entry name are given, the binary is not empty and
    fits, the arguments fit, and no allocation and no copy to the device has
    failed. *)
Theorem init_runtime_impl_return_code
    (r : Runtime) (bin : option (list Z)) (n : Z) (name : option string)
    (fa : list Z) (count : Z) (ty sz : option (list Z)) (env : option string) (w : World) :
  let res := init_runtime_impl (Some r) bin n name fa count ty sz env w in
  (fst res = 0 \/ fst res = -1) /\
  (fst res = 0 <->
   bin <> None /\ name <> None /\ n <> 0 /\
   count <= RUNTIME_MAX_ORCH_ARGS /\ n <= RUNTIME_MAX_AICPU_ORCH_SO_SIZE /\
   forall e, In e (trace_of res) -> ~ failure_event (snd e)).
Proof.
  cbv zeta.
  destruct bin as [bin|]; [|split; [now right | split; [discriminate | tauto]]].
  destruct name as [name|]; [|split; [now right | split; [discriminate | tauto]]].
  destruct (Z.eq_dec n 0) as [->|Hn];
    [split; [now right | split; [discriminate | tauto]]|].
  destruct (init_runtime_impl_valid_cases r bin n name fa count ty sz env w Hn)
    as [[Hcap E] | (Hcap & ok & new & w' & Hl & E)].
  - rewrite E. split; [now right|]. split; [discriminate|]. lia.
  - cbv zeta in E. destruct ok.
    + destruct (Z.leb_spec n RUNTIME_MAX_AICPU_ORCH_SO_SIZE) as [Hso|Hso]; rewrite E.
      * split; [now left|]. split; [|reflexivity]. intros _.
        repeat split; try discriminate; try assumption.
        exact (loop_trace_success _ _ _ _ _ _ _ Hl eq_refl).
      * split; [now right|]. split; [discriminate|]. lia.
    + rewrite E. split; [now right|]. split; [discriminate|].
      intros (_ & _ & _ & _ & _ & Hall).
      destruct (loop_trace_failed _ _ _ _ _ _ _ Hl eq_refl) as (e & Hin & Hf).
      destruct (Hall e Hin Hf).
Qed.

(** X3. After a successful [init_runtime_impl], [orch_argc] is the argument
    count, the embedded delegate is the first [orch_so_size] bytes of the
    binary, the entry name is the given name cut to fit the buffer with its
    terminator (and the name itself when it fits), the build mode is parsed
    from the environment with the previous mode as default, and the task store
    and the function address table are as they were. *)
Theorem init_runtime_impl_success_state
    (r : Runtime) (bin : option (list Z)) (n : Z) (name : option string)
    (fa : list Z) (count : Z) (ty sz : option (list Z)) (env : option string) (w : World) :
  let res := init_runtime_impl (Some r) bin n name fa count ty sz env w in
  fst res = 0 ->
  exists r' b nm,
    runtime_of res = Some r' /\ bin = Some b /\ name = Some nm /\
    orch_argc r' = count /\
    aicpu_orch_so r' = take (Z.to_nat n) b /\
    aicpu_orch_func_name r' = substring 0 (ORCH_FUNC_NAME_SIZE - 1) nm /\
    (String.length (aicpu_orch_func_name r') <= ORCH_FUNC_NAME_SIZE - 1)%nat /\
    ((String.length nm <= ORCH_FUNC_NAME_SIZE - 1)%nat -> aicpu_orch_func_name r' = nm) /\
    build_mode r' = BuildMode.parse_build_mode_env env (build_mode r) /\
    tasks r' = tasks r /\ kernel_addrs r' = kernel_addrs r.
Proof.
  cbv zeta. intros Hrc.
  destruct bin as [bin|]; [|discriminate].
  destruct name as [name|]; [|discriminate].
  destruct (Z.eq_dec n 0) as [->|Hn]; [discriminate|].
  destruct (init_runtime_impl_valid_cases r bin n name fa count ty sz env w Hn)
    as [[Hcap E] | (Hcap & ok & new & w' & Hl & E)].
  { rewrite E in Hrc. discriminate. }
  cbv zeta in E. destruct ok; [|rewrite E in Hrc; discriminate].
  destruct (n <=? RUNTIME_MAX_AICPU_ORCH_SO_SIZE); [|rewrite E in Hrc; discriminate].
  rewrite E. unfold runtime_of. cbn [snd rt].
  destruct (fold_other_fields new (cleared r)) as (H1 & H2 & _ & _ & H5).
  eexists _, bin, name. split; [reflexivity|].
  cbn [orch_argc aicpu_orch_so aicpu_orch_func_name build_mode tasks kernel_addrs
       set_build_mode set_aicpu_orch_func_name set_aicpu_orch_so set_orch_argc].
  rewrite H1, H2, H5. unfold copy_func_name.
  repeat split.
  - rewrite substring_0_length. lia.
  - apply substring_0_all.
Qed.

Lemma arg_events_records atype host asize res evs (i : Z) :
  arg_events atype host asize res evs ->
  map dev_ptr (allocs_of (tag i evs)) = mallocs_of (tag i evs) /\
  Forall (fun p => p <> 0) (mallocs_of (tag i evs)) /\
  (forall tp, In tp (pairs_of (tag i evs)) -> In (pair_dev_ptr tp) (mallocs_of (tag i evs))) /\
  (res <> None ->
   length (allocs_of (tag i evs)) = (if atype =? ARG_SCALAR then 0%nat else 1%nat) /\
   length (pairs_of (tag i evs)) =
     (if negb (atype =? ARG_SCALAR) && copies_back atype then 1%nat else 0%nat)).
Proof.
  intros H. inversion H as [Hs | Hs | dev rc Hs Hd Hc Hrc | dev Hs Hd]; subst.
  - simpl. repeat split; try constructor; try tauto.
  - simpl. repeat split; try constructor; try tauto; congruence.
  - apply Z.eqb_neq in Hd. simpl. rewrite Hd. apply Z.eqb_neq in Hd.
    repeat split; try tauto; try congruence. repeat constructor. exact Hd.
  - apply Z.eqb_neq in Hs. rewrite Hs. apply Z.eqb_neq in Hd.
    unfold pointer_events.
    destruct (copies_in atype), (copies_back atype); simpl; rewrite Hd;
      apply Z.eqb_neq in Hd;
      (split; [reflexivity|]); (split; [repeat constructor; exact Hd|]);
      (split; [|now split]);
      first [ intros tp [<-|[]]; now left | intros tp [] ].
Qed.

(** Every allocation that succeeded is recorded, in order, and every tensor
    pair is on a recorded allocation. *)
Lemma loop_trace_records fa ty sz n i ok new :
  loop_trace fa ty sz n i ok new ->
  map dev_ptr (allocs_of new) = mallocs_of new /\
  Forall (fun p => p <> 0) (mallocs_of new) /\
  (forall tp, In tp (pairs_of new) -> In (pair_dev_ptr tp) (mallocs_of new)).
Proof.
  induction 1 as [i | n i evs Hev | n i v evs ok new Hev Hl IH].
  - simpl. repeat split; [constructor | tauto].
  - destruct (arg_events_records _ _ _ _ _ i Hev) as (H1 & H2 & H3 & _). now repeat split.
  - destruct (arg_events_records _ _ _ _ _ i Hev) as (H1 & H2 & H3 & _).
    destruct IH as (I1 & I2 & I3).
    rewrite allocs_of_app, pairs_of_app, mallocs_of_app, map_app, H1, I1.
    repeat split.
    + apply Forall_app. now split.
    + intros tp Hin. apply in_or_app. apply in_app_or in Hin as [Hin|Hin]; auto.
Qed.

(** The arguments that are not scalars, and those that are copied back. *)
Definition pointer_args (ty : option (list Z)) (count : Z) : list Z :=
  List.filter (fun j => negb (arg_type ty j =? ARG_SCALAR)) (arg_indices (Z.to_nat count) 0).

Definition copy_back_args (ty : option (list Z)) (count : Z) : list Z :=
  List.filter (fun j => negb (arg_type ty j =? ARG_SCALAR) && copies_back (arg_type ty j))
              (arg_indices (Z.to_nat count) 0).

Lemma loop_trace_counts fa ty sz n i ok new :
  loop_trace fa ty sz n i ok new -> ok = true ->
  length (allocs_of new) =
    length (List.filter (fun j => negb (arg_type ty j =? ARG_SCALAR)) (arg_indices n i)) /\
  length (pairs_of new) =
    length (List.filter
              (fun j => negb (arg_type ty j =? ARG_SCALAR) && copies_back (arg_type ty j))
              (arg_indices n i)).
Proof.
  induction 1 as [i | n i evs Hev | n i v evs ok new Hev Hl IH]; intros Hok.
  - now split.
  - discriminate.
  - destruct (arg_events_records _ _ _ _ _ i Hev) as (_ & _ & _ & Hc).
    destruct (Hc ltac:(discriminate)) as [Ha Hp]. destruct (IH Hok) as [Ia Ip].
    rewrite allocs_of_app, pairs_of_app, !length_app, Ha, Hp, Ia, Ip.
    cbn [arg_indices List.filter].
    destruct (arg_type ty i =? ARG_SCALAR); cbn [negb andb]; [now split|].
    destruct (copies_back (arg_type ty i)); now split.
Qed.

(** X4. After a successful [init_runtime_impl] there is one device-allocation
    record per argument that is not a scalar, and one tensor pair per
    argument that is copied back; the recorded pointers are the addresses the
    allocator returned, in the order of the arguments. *)
Theorem init_runtime_impl_record_counts
    (r : Runtime) (bin : option (list Z)) (n : Z) (name : option string)
    (fa : list Z) (count : Z) (ty sz : option (list Z)) (env : option string) (w : World) :
  let res := init_runtime_impl (Some r) bin n name fa count ty sz env w in
  fst res = 0 ->
  exists r', runtime_of res = Some r' /\
    length (device_allocs r') = length (pointer_args ty count) /\
    length (tensor_pairs r') = length (copy_back_args ty count) /\
    map dev_ptr (device_allocs r') = mallocs_of (trace_of res).
Proof.
  cbv zeta. intros Hrc.
  destruct bin as [bin|]; [|discriminate].
  destruct name as [name|]; [|discriminate].
  destruct (Z.eq_dec n 0) as [->|Hn]; [discriminate|].
  destruct (init_runtime_impl_valid_cases r bin n name fa count ty sz env w Hn)
    as [[Hcap E] | (Hcap & ok & new & w' & Hl & E)].
  { rewrite E in Hrc. discriminate. }
  cbv zeta in E. destruct ok; [|rewrite E in Hrc; discriminate].
  destruct (n <=? RUNTIME_MAX_AICPU_ORCH_SO_SIZE); [|rewrite E in Hrc; discriminate].
  rewrite E. unfold runtime_of, trace_of. cbn [snd rt trace].
  eexists. split; [reflexivity|].
  cbn [device_allocs tensor_pairs set_build_mode set_aicpu_orch_func_name
       set_aicpu_orch_so set_orch_argc].
  rewrite fold_device_allocs, fold_tensor_pairs. cbn [cleared clear_device_allocs
    clear_tensor_pairs set_device_allocs set_tensor_pairs device_allocs tensor_pairs app].
  destruct (loop_trace_counts _ _ _ _ _ _ _ Hl eq_refl) as [Ha Hp].
  destruct (loop_trace_records _ _ _ _ _ _ _ Hl) as (Hm & _).
  now repeat split.
Qed.

(** X5. When the marshalling goes through but the orchestration binary is
    larger than [RUNTIME_MAX_AICPU_ORCH_SO_SIZE], [init_runtime_impl] returns
    -1 with [orch_argc] already set to the argument count; the allocations
    stay recorded and are not freed, and the embedded binary, the entry name
    and the build mode are as they were. *)
Theorem init_runtime_impl_oversized_binary
    (r : Runtime) (bin : list Z) (n : Z) (name : string)
    (fa : list Z) (count : Z) (ty sz : option (list Z)) (env : option string) (w : World) :
  let res := init_runtime_impl (Some r) (Some bin) n (Some name) fa count ty sz env w in
  RUNTIME_MAX_AICPU_ORCH_SO_SIZE < n -> n <> 0 -> count <= RUNTIME_MAX_ORCH_ARGS ->
  (forall e, In e (trace_of res) -> ~ failure_event (snd e)) ->
  fst res = -1 /\ frees_of (trace_of res) = [] /\
  exists r', runtime_of res = Some r' /\
    orch_argc r' = count /\
    map dev_ptr (device_allocs r') = mallocs_of (trace_of res) /\
    aicpu_orch_so r' = aicpu_orch_so r /\
    aicpu_orch_func_name r' = aicpu_orch_func_name r /\
    build_mode r' = build_mode r.
Proof.
  cbv zeta. intros Hso Hn Hcap Hall.
  destruct (init_runtime_impl_valid_cases r bin n name fa count ty sz env w Hn)
    as [[Hcap' E] | (_ & ok & new & w' & Hl & E)]; [lia|].
  cbv zeta in E. destruct ok.
  - destruct (Z.leb_spec n RUNTIME_MAX_AICPU_ORCH_SO_SIZE); [lia|].
    rewrite E. unfold runtime_of, trace_of. cbn [fst snd rt trace].
    split; [reflexivity|]. split; [exact (loop_trace_no_free _ _ _ _ _ _ _ Hl)|].
    eexists. split; [reflexivity|].
    cbn [orch_argc device_allocs aicpu_orch_so aicpu_orch_func_name build_mode
         set_orch_argc].
    destruct (fold_other_fields new (cleared r)) as (_ & _ & H3 & H4 & H5).
    destruct (loop_trace_records _ _ _ _ _ _ _ Hl) as (Hm & _).
    rewrite fold_device_allocs, H3, H4, H5. now repeat split.
  - exfalso. rewrite E in Hall. unfold trace_of in Hall. cbn [snd trace] in Hall.
    destruct (loop_trace_failed _ _ _ _ _ _ _ Hl eq_refl) as (e & Hin & Hf).
    exact (Hall e Hin Hf).
Qed.

(** *** More on [validate_runtime_impl] *)

Definition is_copy_back (e : Z * Event) : Prop :=
  match snd e with EvCopyFromDevice _ _ _ _ => True | _ => False end.

Definition is_free (e : Z * Event) : Prop :=
  match snd e with EvDeviceFree _ => True | _ => False end.

(** The copies from the device: host pointer, device pointer, size. *)
Fixpoint copy_backs_of (tr : Trace) : list (Z * Z * Z) :=
  match tr with
  | [] => []
  | (_, EvCopyFromDevice h d n _) :: tr' => (h, d, n) :: copy_backs_of tr'
  | _ :: tr' => copy_backs_of tr'
  end.

(** What the copies from the device returned. *)
Fixpoint copy_rcs (tr : Trace) : list Z :=
  match tr with
  | [] => []
  | (_, EvCopyFromDevice _ _ _ rc) :: tr' => rc :: copy_rcs tr'
  | _ :: tr' => copy_rcs tr'
  end.

(** The last return code that is not 0, or [rc0]. *)
Definition last_failure (rcs : list Z) (rc0 : Z) : Z :=
  fold_left (fun rc copy_rc => if negb (copy_rc =? 0) then copy_rc else rc) rcs rc0.

Definition pair_args (tp : TensorPair) : Z * Z * Z :=
  (host_ptr tp, pair_dev_ptr tp, size tp).

Lemma last_failure_zero (rcs : list Z) : forall rc0,
  last_failure rcs rc0 = 0 <-> Forall (fun c => c = 0) rcs /\ rc0 = 0.
Proof.
  unfold last_failure. induction rcs as [|c rcs IH]; intros rc0; simpl.
  - split; [intros ->; now split | tauto].
  - rewrite IH, Forall_cons_iff. destruct (Z.eqb_spec c 0) as [->|Hc]; simpl; tauto.
Qed.

Lemma copy_back_loop_full (pairs : list TensorPair) : forall (i rc : Z) (st : State),
  exists new w',
    copy_back_loop pairs i rc st =
      (Some (last_failure (copy_rcs new) rc),
       {| rt := rt st; world := w'; trace := trace st ++ new |}) /\
    Forall is_copy_back new /\ copy_backs_of new = map pair_args pairs.
Proof.
  induction pairs as [|tp pairs IH]; intros i rc st.
  - exists [], (world st). simpl. rewrite app_nil_r. split; [now destruct st|].
    split; [constructor | reflexivity].
  - cbn [copy_back_loop]. unfold mbind, M_bind, bind, call_copy_from_device.
    destruct (copy_from_device host_api (world st) (host_ptr tp) (pair_dev_ptr tp) (size tp))
      as [copy_rc w1].
    match goal with |- context [copy_back_loop pairs ?j ?c ?s] =>
      destruct (IH j c s) as (new & w2 & -> & Hc & Hb) end.
    exists ((i, EvCopyFromDevice (host_ptr tp) (pair_dev_ptr tp) (size tp) copy_rc) :: new), w2.
    cbn [rt world trace]. split; [|split].
    + rewrite <- app_assoc. reflexivity.
    + constructor; [exact I | exact Hc].
    + simpl. now rewrite Hb.
Qed.

Lemma free_allocs_loop_full (allocs : list DeviceAlloc) : forall (i freed : Z) (st : State),
  exists n new w',
    free_allocs_loop allocs i freed st =
      (Some n, {| rt := rt st; world := w'; trace := trace st ++ new |}) /\
    Forall is_free new /\ frees_of new = freed_allocs allocs.
Proof.
  induction allocs as [|a allocs IH]; intros i freed st.
  - exists freed, [], (world st). simpl. rewrite app_nil_r. split; [now destruct st|].
    split; [constructor | reflexivity].
  - cbn [free_allocs_loop]. unfold freed_allocs. cbn [map List.filter].
    destruct (dev_ptr a =? 0) eqn:E; cbn [negb].
    + apply IH.
    + unfold mbind, M_bind, bind, call_device_free.
      match goal with |- context [free_allocs_loop allocs ?j ?c ?s] =>
        destruct (IH j c s) as (n & new & w2 & -> & Hc & Hf) end.
      eexists n, (_ :: new), w2. cbn [rt world trace]. split; [|split].
      * rewrite <- app_assoc. reflexivity.
      * constructor; [exact I | exact Hc].
      * simpl. now rewrite Hf.
Qed.

Lemma free_pairs_loop_full (recorded : list DeviceAlloc) (pairs : list TensorPair) :
  forall (i freed : Z) (st : State),
  exists n new w',
    free_pairs_loop recorded pairs i freed st =
      (Some n, {| rt := rt st; world := w'; trace := trace st ++ new |}) /\
    Forall is_free new /\ frees_of new = freed_pairs recorded pairs.
Proof.
  induction pairs as [|tp pairs IH]; intros i freed st.
  - exists freed, [], (world st). simpl. rewrite app_nil_r. split; [now destruct st|].
    split; [constructor | reflexivity].
  - cbn [free_pairs_loop]. unfold freed_pairs. cbn [map List.filter].
    destruct (pair_dev_ptr tp =? 0) eqn:E; cbn [negb andb]; [apply IH|].
    destruct (is_recorded_alloc recorded (pair_dev_ptr tp)) eqn:Er; cbn [negb]; [apply IH|].
    unfold mbind, M_bind, bind, call_device_free.
    match goal with |- context [free_pairs_loop recorded pairs ?j ?c ?s] =>
      destruct (IH j c s) as (n & new & w2 & -> & Hc & Hf) end.
    eexists n, (_ :: new), w2. cbn [rt world trace]. split; [|split].
    + rewrite <- app_assoc. reflexivity.
    + constructor; [exact I | exact Hc].
    + simpl. now rewrite Hf.
Qed.

Lemma validate_runtime_impl_full (r : Runtime) (w : World) :
  exists copies frees w',
    validate_runtime_impl (Some r) w =
      (last_failure (copy_rcs copies) 0,
       Some {| rt := clear_device_allocs (clear_tensor_pairs r); world := w';
               trace := copies ++ frees |}) /\
    Forall is_copy_back copies /\ Forall is_free frees /\
    copy_backs_of copies = map pair_args (tensor_pairs r) /\
    frees_of frees =
      freed_allocs (device_allocs r) ++ freed_pairs (device_allocs r) (tensor_pairs r).
Proof.
  unfold validate_runtime_impl, validate_body, mbind, M_bind, bind.
  destruct (copy_back_loop_full (tensor_pairs r) 0 0 {| rt := r; world := w; trace := [] |})
    as (n1 & w1 & -> & C1 & B1).
  match goal with |- context [free_allocs_loop ?a ?j ?c ?s] =>
    destruct (free_allocs_loop_full a j c s) as (k2 & n2 & w2 & -> & F2 & H2) end.
  match goal with |- context [free_pairs_loop ?a ?p ?j ?c ?s] =>
    destruct (free_pairs_loop_full a p j c s) as (k3 & n3 & w3 & -> & F3 & H3) end.
  cbn [modify_rt ret rt world trace app].
  exists n1, (n2 ++ n3), w3. rewrite app_assoc. split; [reflexivity|].
  split; [exact C1|]. split; [now apply Forall_app|]. split; [exact B1|].
  now rewrite frees_of_app, H2, H3.
Qed.

Lemma copy_only_no_free (tr : Trace) : Forall is_copy_back tr -> frees_of tr = [].
Proof.
  induction 1 as [|[i e] tr He _ IH]; simpl; [reflexivity|].
  destruct e; simpl in He; try contradiction. exact IH.
Qed.

Lemma free_only_no_copy (tr : Trace) :
  Forall is_free tr -> copy_backs_of tr = [] /\ copy_rcs tr = [].
Proof.
  induction 1 as [|[i e] tr He _ IH]; simpl; [now split|].
  destruct e; simpl in He; try contradiction. exact IH.
Qed.

Lemma copy_backs_of_app (a b : Trace) :
  copy_backs_of (a ++ b) = copy_backs_of a ++ copy_backs_of b.
Proof.
  induction a as [|[i e] a IH]; simpl; [reflexivity|].
  destruct e; simpl; rewrite ?IH; reflexivity.
Qed.

Lemma copy_rcs_app (a b : Trace) : copy_rcs (a ++ b) = copy_rcs a ++ copy_rcs b.
Proof.
  induction a as [|[i e] a IH]; simpl; [reflexivity|].
  destruct e; simpl; rewrite ?IH; reflexivity.
Qed.


(** X6. [validate_runtime_impl] copies every recorded tensor back, once each,
    in the order of the records and with the host pointer, device pointer and
    size of the record; all the copies come before the first free, and the
    frees are made whether the copies succeed or not. *)
Theorem validate_runtime_impl_copies_back (r : Runtime) (w : World) :
  let res := validate_runtime_impl (Some r) w in
  exists copies frees,
    trace_of res = copies ++ frees /\
    Forall is_copy_back copies /\ Forall is_free frees /\
    copy_backs_of (trace_of res) = map pair_args (tensor_pairs r) /\
    frees_of frees = frees_of (trace_of res) /\
    frees_of frees =
      freed_allocs (device_allocs r) ++ freed_pairs (device_allocs r) (tensor_pairs r).
Proof.
  cbv zeta.
  destruct (validate_runtime_impl_full r w) as (copies & frees & w' & E & C & F & B & Hf).
  exists copies, frees. rewrite E. unfold trace_of. cbn [snd trace].
  split; [reflexivity|]. split; [exact C|]. split; [exact F|].
  rewrite copy_backs_of_app, frees_of_app, (copy_only_no_free _ C).
  destruct (free_only_no_copy _ F) as [-> _]. rewrite app_nil_r. now repeat split.
Qed.

(** X7. The value [validate_runtime_impl] returns is the return code of the
    last copy from the device that failed, and 0 when none failed. *)
Theorem validate_runtime_impl_return_code (r : Runtime) (w : World) :
  let res := validate_runtime_impl (Some r) w in
  fst res = last_failure (copy_rcs (trace_of res)) 0 /\
  (fst res = 0 <-> Forall (fun rc => rc = 0) (copy_rcs (trace_of res))) /\
  length (copy_rcs (trace_of res)) = length (tensor_pairs r).
Proof.
  cbv zeta.
  destruct (validate_runtime_impl_full r w) as (copies & frees & w' & E & C & F & B & Hf).
  rewrite E. unfold trace_of. cbn [fst snd trace].
  rewrite copy_rcs_app. destruct (free_only_no_copy _ F) as [_ ->]. rewrite app_nil_r.
  split; [reflexivity|]. split.
  - rewrite last_failure_zero. tauto.
  - clear E Hf. transitivity (length (copy_backs_of copies)).
    + clear B. induction copies as [|[i e] copies IH]; [reflexivity|].
      inversion C as [|x l He Hc]; subst. destruct e; simpl in He; try contradiction.
      simpl. now rewrite (IH Hc).
    + now rewrite B, length_map.
Qed.

(** X8. A second [validate_runtime_impl] on the Runtime that the first one
    leaves behind touches the device no more: it makes no copy and no free,
    returns 0 and leaves the Runtime as it is. *)
Theorem validate_runtime_impl_twice (r : Runtime) (w w2 : World) :
  exists r',
    runtime_of (validate_runtime_impl (Some r) w) = Some r' /\
    validate_runtime_impl (Some r') w2 = (0, Some {| rt := r'; world := w2; trace := [] |}).
Proof.
  destruct (validate_runtime_impl_full r w) as (copies & frees & w' & E & _).
  rewrite E. unfold runtime_of. cbn [snd rt]. eexists. split; [reflexivity|].
  reflexivity.
Qed.



End Host.

(** *** A simulated device

    Allocation hands out increasing addresses and fails above 4096 bytes; a
    copy fails when the host pointer is null. *)
Definition sim_host : HostApi Z :=
  {| device_malloc := fun w n => if n <=? 4096 then (w, w + Z.max n 1) else (0, w);
     device_free := fun w _ => w;
     copy_to_device := fun w _ h _ => (if h =? 0 then 1 else 0, w);
     copy_from_device := fun w h _ _ => (if h =? 0 then 1 else 0, w) |}.

Definition host_runtime : Runtime :=
  {| tasks := []; kernel_addrs := [100; 200; 300]; orch_args := repeat 0 8; orch_argc := 0;
     aicpu_orch_so := []; aicpu_orch_func_name := ""; build_mode := 1;
     tensor_pairs := []; device_allocs := [] |}.

(** The call of the vector example: two inputs, one output, one scalar. *)
Definition sim_init (count : Z) (sizes : list Z) : Z * option (State Z) :=
  init_runtime_impl Z sim_host 8 1024 16 32
    (Some host_runtime) (Some [127; 69; 76; 70]) 4 (Some "orchestration"%string)
    [1000; 2000; 3000; 16] count (Some [1; 1; 2; 0]) (Some sizes) (Some "sequential"%string)
    65536.

Example sim_init_ok :
  fst (sim_init 4 [64; 64; 64; 0]) = 0 /\
  trace_of Z (sim_init 4 [64; 64; 64; 0]) =
    [ (0, EvDeviceMalloc 64 65536); (0, EvRecordDeviceAlloc 65536);
      (0, EvCopyToDevice 65536 1000 64 0); (0, EvWriteOrchArg 65536);
      (1, EvDeviceMalloc 64 65600); (1, EvRecordDeviceAlloc 65600);
      (1, EvCopyToDevice 65600 2000 64 0); (1, EvWriteOrchArg 65600);
      (2, EvDeviceMalloc 64 65664); (2, EvRecordDeviceAlloc 65664);
      (2, EvRecordTensorPair 3000 65664 64); (2, EvWriteOrchArg 65664);
      (3, EvWriteOrchArg 16) ] /\
  option_map orch_args (runtime_of Z (sim_init 4 [64; 64; 64; 0])) =
    Some [65536; 65600; 65664; 16; 0; 0; 0; 0] /\
  option_map orch_argc (runtime_of Z (sim_init 4 [64; 64; 64; 0])) = Some 4 /\
  option_map build_mode (runtime_of Z (sim_init 4 [64; 64; 64; 0])) = Some 0.
Proof. repeat split; reflexivity. Qed.

Lemma init_runtime_impl_marshals_witness :
  exists r' dev,
    runtime_of Z (sim_init 4 [64; 64; 64; 0]) = Some r' /\ dev <> 0 /\
    events_of 2 (trace_of Z (sim_init 4 [64; 64; 64; 0])) =
      tag 2 (pointer_events ARG_OUTPUT_PTR 3000 64 dev) /\
    at_index (orch_args r') 2 = dev.
Proof.
  destruct (init_runtime_impl_marshals Z sim_host 8 1024 16 32
              host_runtime (Some [127; 69; 76; 70]) 4 (Some "orchestration"%string)
              [1000; 2000; 3000; 16] 4 (Some [1; 1; 2; 0]) (Some [64; 64; 64; 0])
              (Some "sequential"%string) 65536 2)
    as (r' & Hr & _ & Hp).
  - reflexivity.
  - reflexivity.
  - lia.
  - destruct Hp as (dev & Hd & He & Ha & _); [discriminate|].
    exists r', dev. repeat split; assumption.
Defined.

Lemma init_runtime_impl_capacity_witness :
  fst (sim_init 9 [64; 64; 64; 0]) = -1 /\
  trace_of Z (sim_init 9 [64; 64; 64; 0]) = [] /\
  world_of Z 65536 (sim_init 9 [64; 64; 64; 0]) = 65536 /\
  (forall r, Some host_runtime = Some r ->
     exists r', runtime_of Z (sim_init 9 [64; 64; 64; 0]) = Some r' /\
                orch_args r' = orch_args r /\ orch_argc r' = orch_argc r).
Proof.
  apply (init_runtime_impl_capacity Z sim_host 8 1024 16 32). lia.
Defined.

(** The second allocation fails: the first one stays recorded. *)
Example sim_init_failed :
  fst (sim_init 4 [64; 5000; 64; 0]) = -1 /\
  trace_of Z (sim_init 4 [64; 5000; 64; 0]) =
    [ (0, EvDeviceMalloc 64 65536); (0, EvRecordDeviceAlloc 65536);
      (0, EvCopyToDevice 65536 1000 64 0); (0, EvWriteOrchArg 65536);
      (1, EvDeviceMalloc 5000 0) ] /\
  option_map device_allocs (runtime_of Z (sim_init 4 [64; 5000; 64; 0])) =
    Some [{| dev_ptr := 65536 |}] /\
  option_map orch_argc (runtime_of Z (sim_init 4 [64; 5000; 64; 0])) = Some 0.
Proof. repeat split; reflexivity. Qed.

Lemma init_runtime_impl_partial_failure_witness :
  fst (sim_init 4 [64; 5000; 64; 0]) = -1 /\
  frees_of (trace_of Z (sim_init 4 [64; 5000; 64; 0])) = [] /\
  exists r', runtime_of Z (sim_init 4 [64; 5000; 64; 0]) = Some r' /\
    orch_argc r' = orch_argc host_runtime /\
    device_allocs r' = allocs_of (trace_of Z (sim_init 4 [64; 5000; 64; 0])) /\
    tensor_pairs r' = pairs_of (trace_of Z (sim_init 4 [64; 5000; 64; 0])) /\
    (forall j k p,
       In (j, EvDeviceMalloc k p) (trace_of Z (sim_init 4 [64; 5000; 64; 0])) -> p <> 0 ->
       In {| dev_ptr := p |} (device_allocs r') /\
       forall w2, In p (frees_of (trace_of Z (validate_runtime_impl Z sim_host (Some r') w2)))).
Proof.
  apply (init_runtime_impl_partial_failure Z sim_host 8 1024 16 32
           host_runtime (Some [127; 69; 76; 70]) 4 (Some "orchestration"%string)
           [1000; 2000; 3000; 16] 4 (Some [1; 1; 2; 0]) (Some [64; 5000; 64; 0])
           (Some "sequential"%string) 65536 1 (EvDeviceMalloc 5000 0)).
  - vm_compute. tauto.
  - reflexivity.
Defined.



(** So is the pointer of two tensor pairs, when no allocation is recorded. *)
Example validate_runtime_impl_frees_pair_twice :
  frees_of (trace_of Z (validate_runtime_impl Z sim_host
     (Some (record_tensor_pair 3000 65536 64 (record_tensor_pair 2000 65536 64 host_runtime)))
     0)) = [65536; 65536].
Proof. reflexivity. Qed.



(** *** The further results on the simulated device *)

Lemma init_runtime_impl_success_state_witness :
  exists r',
    runtime_of Z (sim_init 4 [64; 64; 64; 0]) = Some r' /\
    orch_argc r' = 4 /\ aicpu_orch_so r' = [127; 69; 76; 70] /\
    aicpu_orch_func_name r' = "orchestration"%string /\ build_mode r' = 0.
Proof.
  destruct (init_runtime_impl_success_state Z sim_host 8 1024 16 32
              host_runtime (Some [127; 69; 76; 70]) 4 (Some "orchestration"%string)
              [1000; 2000; 3000; 16] 4 (Some [1; 1; 2; 0]) (Some [64; 64; 64; 0])
              (Some "sequential"%string) 65536 eq_refl)
    as (r' & b & nm & Hr & Hb & Hnm & Hc & Hso & _ & _ & Hname & Hmode & _).
  injection Hb as <-. injection Hnm as <-.
  exists r'. split; [exact Hr|]. split; [exact Hc|]. split; [exact Hso|].
  split; [apply Hname; simpl; lia | exact Hmode].
Defined.

Lemma init_runtime_impl_record_counts_witness :
  exists r',
    runtime_of Z (sim_init 4 [64; 64; 64; 0]) = Some r' /\
    length (device_allocs r') = 3%nat /\ length (tensor_pairs r') = 1%nat /\
    map dev_ptr (device_allocs r') = [65536; 65600; 65664].
Proof.
  destruct (init_runtime_impl_record_counts Z sim_host 8 1024 16 32
              host_runtime (Some [127; 69; 76; 70]) 4 (Some "orchestration"%string)
              [1000; 2000; 3000; 16] 4 (Some [1; 1; 2; 0]) (Some [64; 64; 64; 0])
              (Some "sequential"%string) 65536 eq_refl)
    as (r' & Hr & Ha & Hp & Hm).
  exists r'. split; [exact Hr|]. split; [exact Ha|]. split; [exact Hp | exact Hm].
Defined.

(** The same call with room for two bytes of orchestration binary only. *)
Definition sim_init_small : Z * option (State Z) :=
  init_runtime_impl Z sim_host 8 2 16 32
    (Some host_runtime) (Some [127; 69; 76; 70]) 4 (Some "orchestration"%string)
    [1000; 2000; 3000; 16] 4 (Some [1; 1; 2; 0]) (Some [64; 64; 64; 0])
    (Some "sequential"%string) 65536.

Lemma init_runtime_impl_oversized_binary_witness :
  fst sim_init_small = -1 /\ frees_of (trace_of Z sim_init_small) = [] /\
  exists r', runtime_of Z sim_init_small = Some r' /\
    orch_argc r' = 4 /\
    map dev_ptr (device_allocs r') = mallocs_of (trace_of Z sim_init_small) /\
    aicpu_orch_so r' = aicpu_orch_so host_runtime /\
    aicpu_orch_func_name r' = aicpu_orch_func_name host_runtime /\
    build_mode r' = build_mode host_runtime.
Proof.
  apply (init_runtime_impl_oversized_binary Z sim_host 8 2 16 32
           host_runtime [127; 69; 76; 70] 4 "orchestration"%string
           [1000; 2000; 3000; 16] 4 (Some [1; 1; 2; 0]) (Some [64; 64; 64; 0])
           (Some "sequential"%string) 65536).
  - lia.
  - lia.
  - lia.
  - intros e He. vm_compute in He.
    repeat (destruct He as [<-|He]; [simpl; try tauto; try lia|]). destruct He.
Defined.


Example sim_round_trip :
  mallocs_of (trace_of Z (sim_init 4 [64; 64; 64; 0])) = [65536; 65600; 65664] /\
  map pair_args (pairs_of (trace_of Z (sim_init 4 [64; 64; 64; 0]))) = [(3000, 65664, 64)].
Proof. split; reflexivity. Qed.

End RuntimeMaker.

(** ** The orchestration delegate of the vector example *)

Module Orchestration.

Import GraphStore.

(** The calls the delegate makes through the capability table, with what they
    returned. *)
Inductive ApiCall :=
| DeviceMalloc (bytes ptr : Z)
| AddTask (a : list Z) (arg_count f : Z) (c : CoreType) (fl : Z) (task_id : Z)
| AddSuccessor (predecessor_id successor_id : Z) (status : Z)
| PublishTask (task_id : Z) (status : Z).

Section Delegate.

Variable World : Type.

(** [AicpuBuildApi]: the capability table; a null function pointer is [None]. *)
Record AicpuBuildApi := {
  add_task : option (Runtime -> list Z -> Z -> Z -> CoreType -> Z -> Z * Runtime);
  add_successor_conditional : option (Runtime -> Z -> Z -> Z * Runtime);
  publish_task : option (Runtime -> Z -> Z * Runtime);
  device_malloc : option (World -> Z -> Z * World)
}.

Definition DEV_A : Z := 0.
Definition DEV_B : Z := 1.
Definition DEV_F : Z := 2.
Definition SIZE : Z := 6.

(** [static_cast<int>] of a 64-bit value. *)
Definition static_cast_int (x : Z) : Z := (x + 2 ^ 31) mod 2 ^ 32 - 2 ^ 31.

Definition sizeof_float : Z := 4.

(** [ScalarConverter]: the 64-bit word whose low half holds the bits of the
    float and whose high half is zero. *)
Definition f32_1_0 : Z := 1065353216.
Definition f32_2_0 : Z := 1073741824.

Record State := {
  rt : Runtime;
  world : World;
  calls : list ApiCall
}.

(** The part of [orchestration] after the null checks of the table, with the
    four functions at hand. *)
Definition build_graph
    (api_add_task : Runtime -> list Z -> Z -> Z -> CoreType -> Z -> Z * Runtime)
    (api_add_successor_conditional : Runtime -> Z -> Z -> Z * Runtime)
    (api_publish_task : Runtime -> Z -> Z * Runtime)
    (api_device_malloc : World -> Z -> Z * World)
    (dev_a dev_b dev_f size : Z) (r : Runtime) (w : World) : Z * State :=
  let bytes := (size * sizeof_float) mod 2 ^ 64 in
  let '(dev_c, w) := api_device_malloc w bytes in
  let '(dev_d, w) := api_device_malloc w bytes in
  let '(dev_e, w) := api_device_malloc w bytes in
  let log := [DeviceMalloc bytes dev_c; DeviceMalloc bytes dev_d; DeviceMalloc bytes dev_e] in
  if (dev_c =? 0) || (dev_d =? 0) || (dev_e =? 0)
  then (-1, {| rt := r; world := w; calls := log |})
  else
    (* Task 0: c = a + b *)
    let args_t0 := [dev_a; dev_b; dev_c; size] in
    let '(t0, r) := api_add_task r args_t0 4 0 AIV 0 in
    let log := log ++ [AddTask args_t0 4 0 AIV 0 t0] in
    if t0 <? 0 then (-1, {| rt := r; world := w; calls := log |})
    else
      let '(s, r) := api_publish_task r t0 in
      let log := log ++ [PublishTask t0 s] in
      (* Task 1: d = c + 1 *)
      let args_t1 := [dev_c; f32_1_0; dev_d; size] in
      let '(t1, r) := api_add_task r args_t1 4 1 AIV 0 in
      let log := log ++ [AddTask args_t1 4 1 AIV 0 t1] in
      if t1 <? 0 then (-1, {| rt := r; world := w; calls := log |})
      else
        let '(s, r) := api_add_successor_conditional r t0 t1 in
        let log := log ++ [AddSuccessor t0 t1 s] in
        let '(s, r) := api_publish_task r t1 in
        let log := log ++ [PublishTask t1 s] in
        (* Task 2: e = c + 2 *)
        let args_t2 := [dev_c; f32_2_0; dev_e; size] in
        let '(t2, r) := api_add_task r args_t2 4 1 AIV 0 in
        let log := log ++ [AddTask args_t2 4 1 AIV 0 t2] in
        if t2 <? 0 then (-1, {| rt := r; world := w; calls := log |})
        else
          let '(s, r) := api_add_successor_conditional r t0 t2 in
          let log := log ++ [AddSuccessor t0 t2 s] in
          let '(s, r) := api_publish_task r t2 in
          let log := log ++ [PublishTask t2 s] in
          (* Task 3: f = d * e *)
          let args_t3 := [dev_d; dev_e; dev_f; size] in
          let '(t3, r) := api_add_task r args_t3 4 2 AIV 0 in
          let log := log ++ [AddTask args_t3 4 2 AIV 0 t3] in
          if t3 <? 0 then (-1, {| rt := r; world := w; calls := log |})
          else
            let '(s, r) := api_add_successor_conditional r t1 t3 in
            let log := log ++ [AddSuccessor t1 t3 s] in
            let '(s, r) := api_add_successor_conditional r t2 t3 in
            let log := log ++ [AddSuccessor t2 t3 s] in
            let '(s, r) := api_publish_task r t3 in
            let log := log ++ [PublishTask t3 s] in
            if (at_index (kernel_addrs r) 0 =? 0) || (at_index (kernel_addrs r) 1 =? 0)
               || (at_index (kernel_addrs r) 2 =? 0)
            then (-1, {| rt := r; world := w; calls := log |})
            else (0, {| rt := r; world := w; calls := log |}).

Definition orchestration (runtime : option Runtime) (api : AicpuBuildApi) (w : World)
  : Z * option State :=
  match runtime with
  | None => (-1, None)
  | Some r =>
      let unchanged := Some {| rt := r; world := w; calls := [] |} in
      if orch_argc r <? SIZE + 1 then (-1, unchanged)
      else
        let dev_a := at_index (orch_args r) DEV_A in
        let dev_b := at_index (orch_args r) DEV_B in
        let dev_f := at_index (orch_args r) DEV_F in
        let size := static_cast_int (at_index (orch_args r) SIZE) in
        if (dev_a =? 0) || (dev_b =? 0) || (dev_f =? 0) || (size <=? 0)
        then (-1, unchanged)
        else
          match add_task api, add_successor_conditional api, publish_task api,
                device_malloc api with
          | Some f_add, Some f_succ, Some f_pub, Some f_malloc =>
              let '(rc, st) := build_graph f_add f_succ f_pub f_malloc
                                           dev_a dev_b dev_f size r w in
              (rc, Some st)
          | _, _, _, _ => (-1, unchanged)
          end
  end.

(** The table filled with the Builder API of the Runtime. *)
Definition builder_api (max_tasks : nat) (max_args : Z) (malloc : World -> Z -> Z * World)
  : AicpuBuildApi :=
  {| add_task := Some (GraphStore.add_task max_tasks max_args);
     add_successor_conditional := Some GraphStore.add_successor_conditional;
     publish_task := Some GraphStore.publish_task;
     device_malloc := Some malloc |}.

(** The calls of a diamond on the tasks [t0], [t0 + 1], [t0 + 2], [t0 + 3], every
    edge and every publication accepted. *)
Definition diamond_log (dev_a dev_b dev_f size bytes dev_c dev_d dev_e t0 : Z)
  : list ApiCall :=
  [ DeviceMalloc bytes dev_c; DeviceMalloc bytes dev_d; DeviceMalloc bytes dev_e;
    AddTask [dev_a; dev_b; dev_c; size] 4 0 AIV 0 t0;
    PublishTask t0 0;
    AddTask [dev_c; f32_1_0; dev_d; size] 4 1 AIV 0 (t0 + 1);
    AddSuccessor t0 (t0 + 1) 0;
    PublishTask (t0 + 1) 0;
    AddTask [dev_c; f32_2_0; dev_e; size] 4 1 AIV 0 (t0 + 2);
    AddSuccessor t0 (t0 + 2) 0;
    PublishTask (t0 + 2) 0;
    AddTask [dev_d; dev_e; dev_f; size] 4 2 AIV 0 (t0 + 3);
    AddSuccessor (t0 + 1) (t0 + 3) 0;
    AddSuccessor (t0 + 2) (t0 + 3) 0;
    PublishTask (t0 + 3) 0 ].

(** The four tasks of the diamond as they stand in the store at the end. *)
Definition diamond_tasks (dev_a dev_b dev_f size dev_c dev_d dev_e : Z) (n : nat)
  : list Task :=
  [ {| func_id := 0; args := [dev_a; dev_b; dev_c; size]; core_type := AIV; flags := 0;
       published := true; complete := false; fanin := 0; fanout := [S n; S (S n)] |};
    {| func_id := 1; args := [dev_c; f32_1_0; dev_d; size]; core_type := AIV; flags := 0;
       published := true; complete := false; fanin := 0 + 1; fanout := [S (S (S n))] |};
    {| func_id := 1; args := [dev_c; f32_2_0; dev_e; size]; core_type := AIV; flags := 0;
       published := true; complete := false; fanin := 0 + 1; fanout := [S (S (S n))] |};
    {| func_id := 2; args := [dev_d; dev_e; dev_f; size]; core_type := AIV; flags := 0;
       published := true; complete := false; fanin := 0 + 1 + 1; fanout := [] |} ].

(** *** The Builder API on the tail of the store *)

Lemma set_tasks_twice (a b : list Task) (r : Runtime) :
  set_tasks a (set_tasks b r) = set_tasks a r.
Proof. reflexivity. Qed.

Lemma add_task_accepted (mt : nat) (ma : Z) (r r' : Runtime) (a : list Z)
    (n f : Z) (c : CoreType) (fl t : Z) :
  GraphStore.add_task mt ma r a n f c fl = (t, r') -> (t <? 0) = false ->
  t = Z.of_nat (length (tasks r)) /\
  r' = set_tasks (tasks r ++ [new_task a n f c fl]) r.
Proof.
  unfold GraphStore.add_task, FAILURE, task_count. intros H Ht.
  destruct (_ <=? _)%nat; [injection H as <- _; discriminate|].
  destruct (_ <? _); [injection H as <- _; discriminate|].
  destruct (negb _); [injection H as <- _; discriminate|].
  injection H as <- <-. now split.
Qed.

Lemma publish_task_at (r : Runtime) (pre suf : list Task) (k : nat) (x : Task) (t : Z) :
  tasks r = pre ++ suf -> suf !! k = Some x -> published x = false ->
  t = Z.of_nat (length pre + k) ->
  GraphStore.publish_task r t = (0, set_tasks (pre ++ alter set_published k suf) r).
Proof.
  intros Hr Hk Hp ->. unfold GraphStore.publish_task, valid_id, task_count, task_published.
  pose proof (lookup_lt_Some _ _ _ Hk) as Hlt.
  rewrite Hr, length_app, Nat2Z.id, lookup_app_r by lia.
  replace (length pre + k - length pre)%nat with k by lia. rewrite Hk, Hp.
  destruct (Z.leb_spec 0 (Z.of_nat (length pre + k))); [|lia].
  destruct (Z.ltb_spec (Z.of_nat (length pre + k)) (Z.of_nat (length pre + length suf)));
    [|lia].
  simpl. now rewrite alter_app_r.
Qed.

Lemma add_successor_conditional_at (r : Runtime) (pre suf : list Task) (p s : nat)
    (xs : Task) (tp ts : Z) :
  tasks r = pre ++ suf -> (p < length suf)%nat -> suf !! s = Some xs ->
  published xs = false ->
  tp = Z.of_nat (length pre + p) -> ts = Z.of_nat (length pre + s) ->
  GraphStore.add_successor_conditional r tp ts =
    (0, set_tasks (pre ++ alter (add_fanin 1) s
                            (alter (push_fanout (length pre + s)) p suf)) r).
Proof.
  intros Hr Hp Hs Hpub -> ->.
  unfold GraphStore.add_successor_conditional, valid_id, task_count, task_published.
  pose proof (lookup_lt_Some _ _ _ Hs) as Hlt.
  rewrite Hr, length_app, !Nat2Z.id, lookup_app_r by lia.
  replace (length pre + s - length pre)%nat with s by lia. rewrite Hs, Hpub.
  destruct (Z.leb_spec 0 (Z.of_nat (length pre + p))); [|lia].
  destruct (Z.ltb_spec (Z.of_nat (length pre + p)) (Z.of_nat (length pre + length suf)));
    [|lia].
  destruct (Z.leb_spec 0 (Z.of_nat (length pre + s))); [|lia].
  destruct (Z.ltb_spec (Z.of_nat (length pre + s)) (Z.of_nat (length pre + length suf)));
    [|lia].
  simpl. now rewrite !alter_app_r.
Qed.

(** Whatever the functions of the table do, a delegate that returns 0 has made
    these calls in this order; [t0] to [t3] are what [add_task] returned. *)
Lemma build_graph_call_order
    (f_add : Runtime -> list Z -> Z -> Z -> CoreType -> Z -> Z * Runtime)
    (f_succ : Runtime -> Z -> Z -> Z * Runtime) (f_pub : Runtime -> Z -> Z * Runtime)
    (f_malloc : World -> Z -> Z * World)
    (dev_a dev_b dev_f size : Z) (r : Runtime) (w : World) (st : State) :
  build_graph f_add f_succ f_pub f_malloc dev_a dev_b dev_f size r w = (0, st) ->
  exists dev_c dev_d dev_e t0 t1 t2 t3 p0 e1 p1 e2 p2 e3 e4 p3,
    0 <= t0 /\ 0 <= t1 /\ 0 <= t2 /\ 0 <= t3 /\
    calls st =
      [ DeviceMalloc ((size * sizeof_float) mod 2 ^ 64) dev_c;
        DeviceMalloc ((size * sizeof_float) mod 2 ^ 64) dev_d;
        DeviceMalloc ((size * sizeof_float) mod 2 ^ 64) dev_e;
        AddTask [dev_a; dev_b; dev_c; size] 4 0 AIV 0 t0;
        PublishTask t0 p0;
        AddTask [dev_c; f32_1_0; dev_d; size] 4 1 AIV 0 t1;
        AddSuccessor t0 t1 e1;
        PublishTask t1 p1;
        AddTask [dev_c; f32_2_0; dev_e; size] 4 1 AIV 0 t2;
        AddSuccessor t0 t2 e2;
        PublishTask t2 p2;
        AddTask [dev_d; dev_e; dev_f; size] 4 2 AIV 0 t3;
        AddSuccessor t1 t3 e3;
        AddSuccessor t2 t3 e4;
        PublishTask t3 p3 ].
Proof.
  unfold build_graph. intros H.
  destruct (f_malloc w _) as [dev_c w1].
  destruct (f_malloc w1 _) as [dev_d w2].
  destruct (f_malloc w2 _) as [dev_e w3].
  destruct (_ || _); [discriminate|].
  destruct (f_add r _ 4 0 AIV 0) as [t0 r1].
  destruct (Z.ltb_spec t0 0); [discriminate|].
  destruct (f_pub r1 t0) as [p0 r2].
  destruct (f_add r2 _ 4 1 AIV 0) as [t1 r3].
  destruct (Z.ltb_spec t1 0); [discriminate|].
  destruct (f_succ r3 t0 t1) as [e1 r4].
  destruct (f_pub r4 t1) as [p1 r5].
  destruct (f_add r5 _ 4 1 AIV 0) as [t2 r6].
  destruct (Z.ltb_spec t2 0); [discriminate|].
  destruct (f_succ r6 t0 t2) as [e2 r7].
  destruct (f_pub r7 t2) as [p2 r8].
  destruct (f_add r8 _ 4 2 AIV 0) as [t3 r9].
  destruct (Z.ltb_spec t3 0); [discriminate|].
  destruct (f_succ r9 t1 t3) as [e3 r10].
  destruct (f_succ r10 t2 t3) as [e4 r11].
  destruct (f_pub r11 t3) as [p3 r12].
  destruct (_ || _); [discriminate|].
  injection H as <-.
  exists dev_c, dev_d, dev_e, t0, t1, t2, t3, p0, e1, p1, e2, p2, e3, e4, p3.
  repeat split; try assumption.
Qed.

(** C8. When the delegate returns 0 on the Builder API of the Runtime, its
    calls are, in this order: three allocations; [add_task] of [t0] and its
    publication; [add_task] of [t1 = t0 + 1], the edge [t0 -> t1], the
    publication of [t1]; [add_task] of [t2 = t0 + 2], the edge [t0 -> t2], the
    publication of [t2]; [add_task] of [t3 = t0 + 3], the edges [t1 -> t3] and
    [t2 -> t3], the publication of [t3]; every call is accepted, and the store
    has gained exactly these four tasks with exactly these edges. *)
Theorem orchestration_builds_diamond (mt : nat) (ma : Z) (malloc : World -> Z -> Z * World)
    (r : Runtime) (w : World) (st : State) :
  orchestration (Some r) (builder_api mt ma malloc) w = (0, Some st) ->
  let dev_a := at_index (orch_args r) DEV_A in
  let dev_b := at_index (orch_args r) DEV_B in
  let dev_f := at_index (orch_args r) DEV_F in
  let size := static_cast_int (at_index (orch_args r) SIZE) in
  let bytes := (size * sizeof_float) mod 2 ^ 64 in
  let t0 := Z.of_nat (task_count r) in
  exists dev_c dev_d dev_e,
    calls st = diamond_log dev_a dev_b dev_f size bytes dev_c dev_d dev_e t0 /\
    tasks (rt st) =
      tasks r ++ diamond_tasks dev_a dev_b dev_f size dev_c dev_d dev_e (task_count r) /\
    t0 < t0 + 1 < t0 + 2 /\ t0 + 2 < t0 + 3.
Proof.
  unfold orchestration, builder_api. cbn [add_task add_successor_conditional publish_task
    device_malloc]. intros H.
  destruct (orch_argc r <? SIZE + 1); [discriminate|].
  destruct (_ || _); [discriminate|].
  cbv zeta.
  set (dev_a := at_index (orch_args r) DEV_A) in *.
  set (dev_b := at_index (orch_args r) DEV_B) in *.
  set (dev_f := at_index (orch_args r) DEV_F) in *.
  set (size := static_cast_int (at_index (orch_args r) SIZE)) in *.
  unfold build_graph in H.
  set (bytes := (size * sizeof_float) mod 2 ^ 64) in *.
  destruct (malloc w bytes) as [dev_c w1].
  destruct (malloc w1 bytes) as [dev_d w2].
  destruct (malloc w2 bytes) as [dev_e w3].
  exists dev_c, dev_d, dev_e.
  destruct (_ || _); [discriminate|].
  set (pre := tasks r) in *.
  (* task 0 *)
  destruct (GraphStore.add_task mt ma r _ 4 0 AIV 0) as [t0 r1] eqn:E0.
  destruct (t0 <? 0) eqn:L0; [discriminate|].
  apply add_task_accepted in E0 as [-> ->]; [|exact L0]. fold pre in H |- *.
  erewrite (publish_task_at _ pre _ 0) in H;
    [|reflexivity|reflexivity|reflexivity|lia].
  rewrite set_tasks_twice in H. cbn [alter list_alter new_task set_published] in H.
  (* task 1 *)
  match type of H with context [GraphStore.add_task mt ma ?s ?a 4 1 AIV 0] =>
    destruct (GraphStore.add_task mt ma s a 4 1 AIV 0) as [t1 r2] eqn:E1 end.
  destruct (t1 <? 0) eqn:L1; [discriminate|].
  apply add_task_accepted in E1 as [-> ->]; [|exact L1].
  cbn [tasks set_tasks] in H. rewrite set_tasks_twice, <- app_assoc in H.
  cbn [app] in H.
  erewrite (add_successor_conditional_at _ pre _ 0 1) in H;
    [|reflexivity|simpl; lia|reflexivity|reflexivity
     |rewrite ?length_app; simpl; lia|rewrite ?length_app; simpl; lia].
  rewrite set_tasks_twice in H.
  erewrite (publish_task_at _ pre _ 1) in H;
    [|reflexivity|reflexivity|reflexivity|rewrite ?length_app; simpl; lia].
  rewrite set_tasks_twice in H.
  cbn [alter list_alter new_task set_published add_fanin push_fanout
       func_id args core_type flags published complete fanin fanout app] in H.
  (* task 2 *)
  match type of H with context [GraphStore.add_task mt ma ?s ?a 4 1 AIV 0] =>
    destruct (GraphStore.add_task mt ma s a 4 1 AIV 0) as [t2 r3] eqn:E2 end.
  destruct (t2 <? 0) eqn:L2; [discriminate|].
  apply add_task_accepted in E2 as [-> ->]; [|exact L2].
  cbn [tasks set_tasks] in H. rewrite set_tasks_twice, <- app_assoc in H.
  cbn [app] in H.
  erewrite (add_successor_conditional_at _ pre _ 0 2) in H;
    [|reflexivity|simpl; lia|reflexivity|reflexivity
     |rewrite ?length_app; simpl; lia|rewrite ?length_app; simpl; lia].
  rewrite set_tasks_twice in H.
  erewrite (publish_task_at _ pre _ 2) in H;
    [|reflexivity|reflexivity|reflexivity|rewrite ?length_app; simpl; lia].
  rewrite set_tasks_twice in H.
  cbn [alter list_alter new_task set_published add_fanin push_fanout
       func_id args core_type flags published complete fanin fanout app] in H.
  (* task 3 *)
  match type of H with context [GraphStore.add_task mt ma ?s ?a 4 2 AIV 0] =>
    destruct (GraphStore.add_task mt ma s a 4 2 AIV 0) as [t3 r4] eqn:E3 end.
  destruct (t3 <? 0) eqn:L3; [discriminate|].
  apply add_task_accepted in E3 as [-> ->]; [|exact L3].
  cbn [tasks set_tasks] in H. rewrite set_tasks_twice, <- app_assoc in H.
  cbn [app] in H.
  erewrite (add_successor_conditional_at _ pre _ 1 3) in H;
    [|reflexivity|simpl; lia|reflexivity|reflexivity
     |rewrite ?length_app; simpl; lia|rewrite ?length_app; simpl; lia].
  rewrite set_tasks_twice in H.
  cbn [alter list_alter add_fanin push_fanout
       func_id args core_type flags published complete fanin fanout app] in H.
  erewrite (add_successor_conditional_at _ pre _ 2 3) in H;
    [|reflexivity|simpl; lia|reflexivity|reflexivity
     |rewrite ?length_app; simpl; lia|rewrite ?length_app; simpl; lia].
  rewrite set_tasks_twice in H.
  erewrite (publish_task_at _ pre _ 3) in H;
    [|reflexivity|reflexivity|reflexivity|rewrite ?length_app; simpl; lia].
  rewrite set_tasks_twice in H.
  cbn [alter list_alter new_task set_published add_fanin push_fanout
       func_id args core_type flags published complete fanin fanout app] in H.
  destruct (_ || _); [discriminate|].
  injection H as <-. cbn [calls rt tasks set_tasks].
  unfold diamond_log, diamond_tasks, task_count. fold pre.
  rewrite ?length_app. cbn [length].
  split; [|split; [|lia]].
  - repeat (f_equal; try lia).
  - unfold push_fanout, set_published, add_fanin, new_task. simpl.
    repeat (f_equal; try lia).
Qed.

(** *** The delegate on any capability table *)

Lemma static_cast_int_range (x : Z) : - 2 ^ 31 <= static_cast_int x < 2 ^ 31.
Proof.
unfold static_cast_int. pose proof (Z.mod_pos_bound (x + 2 ^ 31) (2 ^ 32)). lia.
Qed.

Lemma bytes_no_overflow (size : Z) :
  0 < size < 2 ^ 31 -> (size * sizeof_float) mod 2 ^ 64 = 4 * size.
Proof.
intros H. unfold sizeof_float. rewrite Z.mod_small; lia.
Qed.

Ltac build_graph_paths H :=
  repeat match type of H with
  | context [match ?c with (_, _) => _ end] => destruct c as [? ?] eqn:?
  | context [if ?b then _ else _] => destruct b eqn:?
  end.

Ltac find_call :=
  repeat first [left; reflexivity | right].

(** What the delegate has checked before its first call. *)
Lemma orchestration_called (r : Runtime) (api : AicpuBuildApi) (w : World)
    (rc : Z) (st : State) :
  orchestration (Some r) api w = (rc, Some st) ->
  (rc = -1 /\ st = {| rt := r; world := w; calls := [] |}) \/
  (SIZE < orch_argc r /\
   at_index (orch_args r) DEV_A <> 0 /\ at_index (orch_args r) DEV_B <> 0 /\
   at_index (orch_args r) DEV_F <> 0 /\
   0 < static_cast_int (at_index (orch_args r) SIZE) /\
   exists f_add f_succ f_pub f_malloc,
     add_task api = Some f_add /\ add_successor_conditional api = Some f_succ /\
     publish_task api = Some f_pub /\ device_malloc api = Some f_malloc /\
     build_graph f_add f_succ f_pub f_malloc
       (at_index (orch_args r) DEV_A) (at_index (orch_args r) DEV_B)
       (at_index (orch_args r) DEV_F) (static_cast_int (at_index (orch_args r) SIZE))
       r w = (rc, st)).
Proof.
unfold orchestration. intros H.
destruct (Z.ltb_spec (orch_argc r) (SIZE + 1)); [injection H as <- <-; now left|].
destruct (_ || _) eqn:Hchk; [injection H as <- <-; now left|].
apply orb_false_iff in Hchk as [Hchk Hs]. apply orb_false_iff in Hchk as [Hchk Hf].
apply orb_false_iff in Hchk as [Ha Hb].
destruct (add_task api) as [f_add|]; [|injection H as <- <-; now left].
destruct (add_successor_conditional api) as [f_succ|]; [|injection H as <- <-; now left].
destruct (publish_task api) as [f_pub|]; [|injection H as <- <-; now left].
destruct (device_malloc api) as [f_malloc|]; [|injection H as <- <-; now left].
destruct (build_graph _ _ _ _ _ _ _ _ _ _) as [rc' st'] eqn:Hb'.
injection H as <- <-. right.
repeat (split; [lia|]). exists f_add, f_succ, f_pub, f_malloc. auto.
Qed.

(** X17. The delegate makes no call at all unless [orch_argc] is at least 7,
    the three tensor addresses are non-null and the element count, read as an
    [int], is positive.  When it does, its first three calls are the three
    allocations, each of exactly four times the element count (the product
    cannot wrap around), and all three are made before any result is looked
    at: if one of them returned null, the delegate returns -1 without a further
    call and with the Runtime as it was. *)
Theorem orchestration_allocations (r : Runtime) (api : AicpuBuildApi) (w : World)
    (rc : Z) (st : State) :
  orchestration (Some r) api w = (rc, Some st) -> calls st <> [] ->
  let size := static_cast_int (at_index (orch_args r) SIZE) in
  7 <= orch_argc r /\ 0 < size < 2 ^ 31 /\
  at_index (orch_args r) 0 <> 0 /\ at_index (orch_args r) 1 <> 0 /\
  at_index (orch_args r) 2 <> 0 /\
  exists dev_c dev_d dev_e rest,
    calls st = DeviceMalloc (4 * size) dev_c :: DeviceMalloc (4 * size) dev_d ::
               DeviceMalloc (4 * size) dev_e :: rest /\
    (dev_c = 0 \/ dev_d = 0 \/ dev_e = 0 -> rc = -1 /\ rest = [] /\ rt st = r).
Proof.
intros H Hne. cbv zeta.
destruct (orchestration_called _ _ _ _ _ H) as [[_ ->]|(Hc & Ha & Hb & Hf & Hs & Hg)];
  [now destruct Hne|].
pose proof (static_cast_int_range (at_index (orch_args r) SIZE)) as Hr.
unfold SIZE in Hc. repeat (split; [first [assumption | lia]|]).
destruct Hg as (f_add & f_succ & f_pub & f_malloc & _ & _ & _ & _ & Hg).
unfold build_graph in Hg.
rewrite bytes_no_overflow in Hg by lia.
destruct (f_malloc w _) as [dev_c w1].
destruct (f_malloc w1 _) as [dev_d w2].
destruct (f_malloc w2 _) as [dev_e w3].
exists dev_c, dev_d, dev_e.
destruct (_ || _) eqn:Hnull.
- injection Hg as <- <-. exists []. simpl. auto.
- apply orb_false_iff in Hnull as [Hnull He]. apply orb_false_iff in Hnull as [Hc' Hd].
  assert (Hnn : ~ (dev_c = 0 \/ dev_d = 0 \/ dev_e = 0)) by lia.
  build_graph_paths Hg; injection Hg as <- <-; simpl; eexists;
    (split; [reflexivity | intros Hn; now destruct Hnn]).
Qed.

(** X18. No task is left unpublished.  Whatever the functions of the table
    return, and whether the delegate ends with 0 or with -1, every task that
    [add_task] created (a non-negative id) has been handed to [publish_task]:
    when a later [add_task] fails, or a kernel is missing, the tasks created
    so far are already visible to the scheduler. *)
Theorem orchestration_publishes_created_tasks (r : Runtime) (api : AicpuBuildApi)
    (w : World) (rc : Z) (st : State)
    (a : list Z) (n f : Z) (c : CoreType) (fl task_id : Z) :
  orchestration (Some r) api w = (rc, Some st) ->
  In (AddTask a n f c fl task_id) (calls st) -> 0 <= task_id ->
  exists status, In (PublishTask task_id status) (calls st).
Proof.
intros H Hin Ht.
destruct (orchestration_called _ _ _ _ _ H) as [[_ ->]|(_ & _ & _ & _ & _ & Hg)];
  [destruct Hin|].
destruct Hg as (f_add & f_succ & f_pub & f_malloc & _ & _ & _ & _ & Hg).
unfold build_graph in Hg.
build_graph_paths Hg; injection Hg as <- <-; simpl in Hin;
  repeat match type of Hin with
  | _ \/ _ => destruct Hin as [Hin|Hin]
  | False => destruct Hin
  | _ = _ => first [discriminate Hin | injection Hin as <- <- <- <- <- <-]
  end;
  try lia; eexists; simpl; find_call.
Qed.

(** X19. The delegate returns 0 or -1, and 0 exactly when it has made all
    fifteen calls and the kernels 0, 1 and 2 are registered in the Runtime as
    the last call left it; the statuses of [add_successor_conditional] and
    [publish_task] play no part. *)
Theorem orchestration_success_iff (r : Runtime) (api : AicpuBuildApi) (w : World)
    (rc : Z) (st : State) :
  orchestration (Some r) api w = (rc, Some st) ->
  (rc = 0 \/ rc = -1) /\
  (rc = 0 <->
   length (calls st) = 15%nat /\
   at_index (kernel_addrs (rt st)) 0 <> 0 /\ at_index (kernel_addrs (rt st)) 1 <> 0 /\
   at_index (kernel_addrs (rt st)) 2 <> 0).
Proof.
intros H.
destruct (orchestration_called _ _ _ _ _ H) as [[-> ->]|(_ & _ & _ & _ & _ & Hg)].
- split; [now right|]. simpl. split; [discriminate | intros [? _]; discriminate].
- destruct Hg as (f_add & f_succ & f_pub & f_malloc & _ & _ & _ & _ & Hg).
  unfold build_graph in Hg.
  build_graph_paths Hg; injection Hg as <- <-; simpl;
    (split; [auto|]); split;
    try discriminate; try (intros [? _]; discriminate); try (intros _; reflexivity).
  + intros (_ & K0 & K1 & K2).
    match goal with Hk : (_ || _ || _) = true |- _ =>
      apply orb_true_iff in Hk as [Hk|Hk]; [apply orb_true_iff in Hk as [Hk|Hk]|];
      apply Z.eqb_eq in Hk; contradiction end.
  + intros _.
    match goal with Hk : (_ || _ || (at_index _ 2 =? 0)) = false |- _ =>
      apply orb_false_iff in Hk as [Hk K2]; apply orb_false_iff in Hk as [K0 K1];
      apply Z.eqb_neq in K0, K1, K2 end.
    auto.
Qed.

End Delegate.

(** The delegate on a simulated device, after [init_runtime_impl]. *)
Definition sim_malloc (w : Z) (n : Z) : Z * Z := (w, w + n).

Definition sim_runtime : Runtime :=
  {| tasks := []; kernel_addrs := [100; 200; 300];
     orch_args := [65536; 65600; 65664; 64; 64; 64; 16; 0]; orch_argc := 7;
     aicpu_orch_so := []; aicpu_orch_func_name := "orchestration"; build_mode := 0;
     tensor_pairs := []; device_allocs := [] |}.

Definition sim_orchestration : Z * option (State Z) :=
  orchestration Z (Some sim_runtime) (builder_api Z 16 16 sim_malloc) 70000.

Example sim_orchestration_ok :
  fst sim_orchestration = 0 /\
  option_map (calls Z) (snd sim_orchestration) =
    Some (diamond_log 65536 65600 65664 16 64 70000 70064 70128 0) /\
  option_map (fun st => tasks (rt Z st)) (snd sim_orchestration) =
    Some (diamond_tasks 65536 65600 65664 16 70000 70064 70128 0).
Proof. repeat split; reflexivity. Qed.

Definition sim_final : State Z :=
  {| rt := set_tasks (diamond_tasks 65536 65600 65664 16 70000 70064 70128 0) sim_runtime;
     world := 70192;
     calls := diamond_log 65536 65600 65664 16 64 70000 70064 70128 0 |}.

Lemma orchestration_builds_diamond_witness :
  exists dev_c dev_d dev_e,
    calls Z sim_final = diamond_log 65536 65600 65664 16 64 dev_c dev_d dev_e 0 /\
    tasks (rt Z sim_final) =
      tasks sim_runtime ++ diamond_tasks 65536 65600 65664 16 dev_c dev_d dev_e 0 /\
    0 < 0 + 1 < 0 + 2 /\ 0 + 2 < 0 + 3.
Proof.
  apply (orchestration_builds_diamond Z 16 16 sim_malloc sim_runtime 70000 sim_final).
  reflexivity.
Defined.

Lemma orchestration_allocations_witness :
  7 <= orch_argc sim_runtime /\
  0 < static_cast_int (at_index (orch_args sim_runtime) SIZE) < 2 ^ 31.
Proof.
destruct (orchestration_allocations Z sim_runtime (builder_api Z 16 16 sim_malloc)
            70000 0 sim_final eq_refl) as (H1 & H2 & _); [discriminate|].
split; [exact H1 | exact H2].
Defined.

(** A store with room for two tasks only: the third [add_task] fails. *)
Definition sim_short : Z * option (State Z) :=
  orchestration Z (Some sim_runtime) (builder_api Z 2 16 sim_malloc) 70000.

Definition sim_short_final : State Z :=
  {| rt := set_tasks
             [ {| func_id := 0; args := [65536; 65600; 70000; 16]; core_type := AIV;
                  flags := 0; published := true; complete := false; fanin := 0;
                  fanout := [1%nat] |};
               {| func_id := 1; args := [70000; f32_1_0; 70064; 16]; core_type := AIV;
                  flags := 0; published := true; complete := false; fanin := 1;
                  fanout := [] |} ] sim_runtime;
     world := 70192;
     calls := [ DeviceMalloc 64 70000; DeviceMalloc 64 70064; DeviceMalloc 64 70128;
                AddTask [65536; 65600; 70000; 16] 4 0 AIV 0 0;
                PublishTask 0 0;
                AddTask [70000; f32_1_0; 70064; 16] 4 1 AIV 0 1;
                AddSuccessor 0 1 0;
                PublishTask 1 0;
                AddTask [70000; f32_2_0; 70128; 16] 4 1 AIV 0 (-1) ] |}.

Example sim_short_fails : sim_short = (-1, Some sim_short_final).
Proof. reflexivity. Qed.

Lemma orchestration_publishes_created_tasks_witness :
  exists status, In (PublishTask 1 status) (calls Z sim_short_final).
Proof.
apply (orchestration_publishes_created_tasks Z sim_runtime (builder_api Z 2 16 sim_malloc)
         70000 (-1) sim_short_final [70000; f32_1_0; 70064; 16] 4 1 AIV 0 1).
- reflexivity.
- simpl. do 5 right. left. reflexivity.
- lia.
Defined.

Lemma orchestration_success_iff_witness :
  (-1 = 0 \/ -1 = -1) /\
  (-1 = 0 <->
   length (calls Z sim_short_final) = 15%nat /\
   at_index (kernel_addrs (rt Z sim_short_final)) 0 <> 0 /\
   at_index (kernel_addrs (rt Z sim_short_final)) 1 <> 0 /\
   at_index (kernel_addrs (rt Z sim_short_final)) 2 <> 0).
Proof.
apply (orchestration_success_iff Z sim_runtime (builder_api Z 2 16 sim_malloc) 70000).
reflexivity.
Defined.

End Orchestration.
